(** * bb-rss: the RSS feed generator, embedded and verified

    The repository holds two variants of one script:

    - [generate-rss.js] fetches the API through a Playwright page, merges the
      posts with the items of the previous [feed.xml] and rewrites the file
      (module [Playwright] below);
    - the second file fetches with a plain HTTP client, with time-out and
      retries, and renders the posts directly (module [Direct] below).

    JavaScript strings are modelled by their UTF-8 bytes ([string]); an absent
    property of a JSON object is [None].  The platform functions whose
    algorithm is not part of the repository ([crypto]'s MD5 and [Date.parse])
    are operations of the class [Runtime]; every theorem holds for every
    runtime, and [node_runtime] implements them for the examples. *)

From Stdlib Require Import String Ascii ZArith List Bool Lia Permutation Sorted.
From stdpp Require Import base gmap sets list strings.

Local Open Scope Z_scope.

(** ** JavaScript strings *)

Module Js.

(** [a || b] on an optional string: [undefined] and [''] are falsy. *)
Definition truthy (o : option string) : bool :=
  match o with
  | Some s => negb (String.eqb s "")
  | None => false
  end.

Definition or_else (o : option string) (d : string) : string :=
  match o with
  | Some s => if String.eqb s "" then d else s
  | None => d
  end.

(** [o1 || o2], still possibly undefined. *)
Definition or_opt (o1 o2 : option string) : option string :=
  if truthy o1 then o1 else o2.

(** [s.startsWith(p)] and the rest of [s] after [p]. *)
Fixpoint strip_prefix (p s : string) : option string :=
  match p, s with
  | EmptyString, _ => Some s
  | String a p', String b s' => if Ascii.eqb a b then strip_prefix p' s' else None
  | String _ _, EmptyString => None
  end.

Definition startsWith (p s : string) : bool :=
  match strip_prefix p s with Some _ => true | None => false end.

(** [s.replace(/^p/, "")] for a literal [p]. *)
Definition remove_prefix (p s : string) : string :=
  match strip_prefix p s with Some r => r | None => s end.

(** [s.replace(/c/g, r)] for one character [c]. *)
Fixpoint replace_char (c : ascii) (r : string) (s : string) : string :=
  match s with
  | EmptyString => EmptyString
  | String a s' =>
      if Ascii.eqb a c then r +:+ replace_char c r s'
      else String a (replace_char c r s')
  end.

(** [s.replace(/p|q/g, "")] for two literal, non-empty alternatives: the
    matches are found from left to right, [p] is tried before [q] at each
    position, and matches do not overlap. *)
Fixpoint remove_all_aux (fuel : nat) (p q s : string) : string :=
  match fuel with
  | O => s
  | S fuel' =>
      match strip_prefix p s with
      | Some r => remove_all_aux fuel' p q r
      | None =>
          match strip_prefix q s with
          | Some r => remove_all_aux fuel' p q r
          | None =>
              match s with
              | EmptyString => EmptyString
              | String a s' => String a (remove_all_aux fuel' p q s')
              end
          end
      end
  end.

Definition remove_all (p q s : string) : string :=
  remove_all_aux (S (String.length s)) p q s.

(** [s.includes(p)]. *)
Fixpoint includes_aux (p s : string) : bool :=
  match s with
  | EmptyString => startsWith p EmptyString
  | String _ s' => startsWith p s || includes_aux p s'
  end.

Definition includes (p s : string) : bool := includes_aux p s.

Definition lower_ascii (a : ascii) : ascii :=
  let n := nat_of_ascii a in
  if ((65 <=? n)%nat && (n <=? 90)%nat)%bool then ascii_of_nat (n + 32) else a.

Fixpoint toLowerCase (s : string) : string :=
  match s with
  | EmptyString => EmptyString
  | String a s' => String (lower_ascii a) (toLowerCase s')
  end.

(** The white space [String.prototype.trim] removes, in UTF-8: the ASCII
    controls TAB, LF, VT, FF, CR, the space, and U+00A0, U+1680,
    U+2000..U+200A, U+2028, U+2029, U+202F, U+205F, U+3000, U+FEFF. *)
Definition ws_prefix (s : string) : option string :=
  match s with
  | String a r =>
      let n := nat_of_ascii a in
      if ((9 <=? n)%nat && (n <=? 13)%nat || (n =? 32)%nat)%bool then Some r
      else
        match r with
        | String b r1 =>
            let m := nat_of_ascii b in
            if ((n =? 194)%nat && (m =? 160)%nat)%bool then Some r1
            else
              match r1 with
              | String c r2 =>
                  let k := nat_of_ascii c in
                  if ((n =? 225) && (m =? 154) && (k =? 128))%nat%bool then Some r2
                  else if ((n =? 226) && (m =? 128)
                           && ((128 <=? k) && (k <=? 138) || (k =? 168) || (k =? 169)
                               || (k =? 175)))%nat%bool then Some r2
                  else if ((n =? 226) && (m =? 129) && (k =? 159))%nat%bool then Some r2
                  else if ((n =? 227) && (m =? 128) && (k =? 128))%nat%bool then Some r2
                  else if ((n =? 239) && (m =? 187) && (k =? 191))%nat%bool then Some r2
                  else None
              | EmptyString => None
              end
        | EmptyString => None
        end
  | EmptyString => None
  end.

Fixpoint trimStart_aux (fuel : nat) (s : string) : string :=
  match fuel with
  | O => s
  | S fuel' =>
      match ws_prefix s with
      | Some r => trimStart_aux fuel' r
      | None => s
      end
  end.

(** [s.trimStart()]; the scripts only ask how [s.trim()] starts, and for a
    prefix that is not white space that is how [s.trimStart()] starts. *)
Definition trimStart (s : string) : string := trimStart_aux (String.length s) s.

(** [String(n)] for a natural number. *)
Definition digit (d : Z) : ascii := ascii_of_nat (48 + Z.to_nat d).

Fixpoint decimal_aux (fuel : nat) (n : Z) (acc : string) : string :=
  match fuel with
  | O => acc
  | S fuel' =>
      let acc' := String (digit (n mod 10)) acc in
      if n <? 10 then acc' else decimal_aux fuel' (n / 10) acc'
  end.

Definition decimal (n : Z) : string :=
  decimal_aux (S (Z.to_nat (Z.log2 n))) n EmptyString.

(** [ToZeroPaddedDecimalString(n, k)]. *)
Fixpoint zeros (k : nat) : string :=
  match k with O => EmptyString | S k' => String "0" (zeros k') end.

Definition padded (k : nat) (n : Z) : string :=
  let d := decimal n in zeros (k - String.length d) +:+ d.

(** [Array.prototype.sort(cmp)].  ECMAScript reads the comparator's result
    [v] as: NaN counts as +0; [v < 0] puts [x] first, [v > 0] puts [y] first,
    and the sort is stable.  For a consistent comparator that fixes the
    result; this is the stable insertion sort. *)
Definition order (v : option Z) : Z :=
  match v with Some z => z | None => 0 end.

Fixpoint insert {A} (cmp : A → A → option Z) (x : A) (l : list A) : list A :=
  match l with
  | [] => [x]
  | y :: l' => if 0 <? order (cmp x y) then y :: insert cmp x l' else x :: l
  end.

Definition sort {A} (cmp : A → A → option Z) (l : list A) : list A :=
  fold_right (insert cmp) [] l.

(** The double quote and the line feed, for the literals that hold them. *)
Definition dq : string := String (ascii_of_nat 34) EmptyString.
Definition nl : string := String (ascii_of_nat 10) EmptyString.

End Js.

(** ** Dates

    A Date is its time value: milliseconds since the epoch, or [None] for the
    invalid date (NaN).  [toUTCString] is ECMAScript's, to the letter. *)

Module Date.

Definition msPerDay : Z := 86400000.

(** Year, month (1..12) and day of the month of a day number (days since
    1970-01-01, proleptic Gregorian calendar). *)
Definition civil (days : Z) : Z * Z * Z :=
  let z := days + 719468 in
  let era := z / 146097 in
  let doe := z - era * 146097 in
  let yoe := (doe - doe / 1460 + doe / 36524 - doe / 146096) / 365 in
  let doy := doe - (365 * yoe + yoe / 4 - yoe / 100) in
  let mp := (5 * doy + 2) / 153 in
  let d := doy - (153 * mp + 2) / 5 + 1 in
  let m := if mp <? 10 then mp + 3 else mp - 9 in
  let y := yoe + era * 400 + (if m <=? 2 then 1 else 0) in
  (y, m, d).

(** The day number of a calendar date: the inverse of [civil]. *)
Definition days_from_civil (y m d : Z) : Z :=
  let y' := y - (if m <=? 2 then 1 else 0) in
  let era := y' / 400 in
  let yoe := y' - era * 400 in
  let doy := (153 * (if 2 <? m then m - 3 else m + 9) + 2) / 5 + d - 1 in
  let doe := yoe * 365 + yoe / 4 - yoe / 100 + doy in
  era * 146097 + doe - 719468.

Definition weekday_name (w : Z) : string :=
  nth (Z.to_nat w) ["Sun"; "Mon"; "Tue"; "Wed"; "Thu"; "Fri"; "Sat"] "Sun".

Definition month_names : list string :=
  ["Jan"; "Feb"; "Mar"; "Apr"; "May"; "Jun"; "Jul"; "Aug"; "Sep"; "Oct"; "Nov"; "Dec"].

Definition month_name (m : Z) : string :=
  nth (Z.to_nat (m - 1)) month_names "Jan".

(** [new Date(t).toUTCString()] for a valid time value [t]:
    "Www, DD Mmm YYYY HH:MM:SS GMT". *)
Definition toUTCString (t : Z) : string :=
  let day := t / msPerDay in
  let ms := t mod msPerDay in
  let '(y, m, d) := civil day in
  let w := (day + 4) mod 7 in
  weekday_name w +:+ ", " +:+ Js.padded 2 d +:+ " " +:+ month_name m +:+ " "
  +:+ (if y <? 0 then "-" else "") +:+ Js.padded 4 (Z.abs y) +:+ " "
  +:+ Js.padded 2 (ms / 3600000) +:+ ":" +:+ Js.padded 2 (ms / 60000 mod 60) +:+ ":"
  +:+ Js.padded 2 (ms / 1000 mod 60) +:+ " GMT".

(** [d.toUTCString()] for any Date. *)
Definition render (d : option Z) : string :=
  match d with
  | Some t => toUTCString t
  | None => "Invalid Date"
  end.

(** [a - b] on two Dates: NaN when either is invalid. *)
Definition minus (a b : option Z) : option Z :=
  match a, b with
  | Some x, Some y => Some (x - y)
  | _, _ => None
  end.

End Date.

(** ** MD5 (RFC 1321), for [node_runtime]

    [crypto.createHash('md5').update(str).digest('hex')]: the digest of the
    UTF-8 bytes of [str], in lower-case hexadecimal. *)

Module Md5.

Definition w32 (x : Z) : Z := x mod 2 ^ 32.

Definition rotl (x n : Z) : Z :=
  w32 (Z.lor (Z.shiftl x n) (Z.shiftr x (32 - n))).

Definition shifts : list Z :=
  [7; 12; 17; 22; 7; 12; 17; 22; 7; 12; 17; 22; 7; 12; 17; 22;
   5; 9; 14; 20; 5; 9; 14; 20; 5; 9; 14; 20; 5; 9; 14; 20;
   4; 11; 16; 23; 4; 11; 16; 23; 4; 11; 16; 23; 4; 11; 16; 23;
   6; 10; 15; 21; 6; 10; 15; 21; 6; 10; 15; 21; 6; 10; 15; 21].

(** [floor (2^32 * abs (sin (i + 1)))] for [i] from 0 to 63. *)
Definition K : list Z :=
  [
   0xd76aa478; 0xe8c7b756; 0x242070db; 0xc1bdceee;
   0xf57c0faf; 0x4787c62a; 0xa8304613; 0xfd469501;
   0x698098d8; 0x8b44f7af; 0xffff5bb1; 0x895cd7be;
   0x6b901122; 0xfd987193; 0xa679438e; 0x49b40821;
   0xf61e2562; 0xc040b340; 0x265e5a51; 0xe9b6c7aa;
   0xd62f105d; 0x02441453; 0xd8a1e681; 0xe7d3fbc8;
   0x21e1cde6; 0xc33707d6; 0xf4d50d87; 0x455a14ed;
   0xa9e3e905; 0xfcefa3f8; 0x676f02d9; 0x8d2a4c8a;
   0xfffa3942; 0x8771f681; 0x6d9d6122; 0xfde5380c;
   0xa4beea44; 0x4bdecfa9; 0xf6bb4b60; 0xbebfbc70;
   0x289b7ec6; 0xeaa127fa; 0xd4ef3085; 0x04881d05;
   0xd9d4d039; 0xe6db99e5; 0x1fa27cf8; 0xc4ac5665;
   0xf4292244; 0x432aff97; 0xab9423a7; 0xfc93a039;
   0x655b59c3; 0x8f0ccc92; 0xffeff47d; 0x85845dd1;
   0x6fa87e4f; 0xfe2ce6e0; 0xa3014314; 0x4e0811a1;
   0xf7537e82; 0xbd3af235; 0x2ad7d2bb; 0xeb86d391].

Definition bytes_of (s : string) : list Z :=
  map (fun a => Z.of_nat (nat_of_ascii a)) (list_ascii_of_string s).

(** [n] as [k] little-endian bytes. *)
Fixpoint le_bytes (k : nat) (n : Z) : list Z :=
  match k with
  | O => []
  | S k' => n mod 256 :: le_bytes k' (n / 256)
  end.

Definition pad (msg : list Z) : list Z :=
  let len := Z.of_nat (length msg) in
  let zeros := Z.to_nat ((55 - len) mod 64) in
  msg ++ 128 :: repeat 0 zeros ++ le_bytes 8 (8 * len).

(** Little-endian 32-bit words of a byte list. *)
Fixpoint words (fuel : nat) (bs : list Z) : list Z :=
  match fuel, bs with
  | S fuel', b0 :: b1 :: b2 :: b3 :: rest =>
      (b0 + 256 * b1 + 65536 * b2 + 16777216 * b3) :: words fuel' rest
  | _, _ => []
  end.

Definition round_fn (i : Z) (b c d : Z) : Z * Z :=
  if i <? 16 then (Z.lor (Z.land b c) (Z.land (w32 (Z.lnot b)) d), i)
  else if i <? 32 then (Z.lor (Z.land d b) (Z.land (w32 (Z.lnot d)) c), (5 * i + 1) mod 16)
  else if i <? 48 then (Z.lxor (Z.lxor b c) d, (3 * i + 5) mod 16)
  else (Z.lxor c (Z.lor b (w32 (Z.lnot d))), (7 * i) mod 16).

Definition step (M : list Z) (st : Z * Z * Z * Z) (i : nat) : Z * Z * Z * Z :=
  let '(a, b, c, d) := st in
  let '(f, g) := round_fn (Z.of_nat i) b c d in
  let f' := w32 (f + a + nth i K 0 + nth (Z.to_nat g) M 0) in
  (d, w32 (b + rotl f' (nth i shifts 0)), b, c).

Definition chunk (st : Z * Z * Z * Z) (M : list Z) : Z * Z * Z * Z :=
  let '(a0, b0, c0, d0) := st in
  let '(a, b, c, d) := fold_left (step M) (seq 0 64) st in
  (w32 (a0 + a), w32 (b0 + b), w32 (c0 + c), w32 (d0 + d)).

Fixpoint chunks (fuel : nat) (ws : list Z) (st : Z * Z * Z * Z) : Z * Z * Z * Z :=
  match fuel, ws with
  | S fuel', _ :: _ => chunks fuel' (drop 16 ws) (chunk st (take 16 ws))
  | _, _ => st
  end.

Definition hex_digit (d : Z) : ascii :=
  if d <? 10 then ascii_of_nat (48 + Z.to_nat d) else ascii_of_nat (87 + Z.to_nat d).

Fixpoint hex_of_bytes (bs : list Z) : string :=
  match bs with
  | [] => EmptyString
  | b :: bs' => String (hex_digit (b / 16)) (String (hex_digit (b mod 16)) (hex_of_bytes bs'))
  end.

Definition digest (s : string) : list Z :=
  let bs := pad (bytes_of s) in
  let ws := words (length bs) bs in
  let '(a, b, c, d) :=
    chunks (length ws) ws (0x67452301, 0xefcdab89, 0x98badcfe, 0x10325476) in
  le_bytes 4 a ++ le_bytes 4 b ++ le_bytes 4 c ++ le_bytes 4 d.

Definition hex (s : string) : string := hex_of_bytes (digest s).

End Md5.

(** ** A [Date.parse] for [node_runtime]

    ECMAScript fixes what [Date.parse] makes of two formats, and leaves the
    rest to the implementation.  This parser reads those two, in UTC: the ISO
    format [YYYY-MM-DDTHH:mm:ss.sssZ] (the milliseconds optional) and the
    output of [toUTCString].  Every other string is an invalid date here. *)

Module DateParse.

Definition digit_value (a : ascii) : option Z :=
  let n := nat_of_ascii a in
  if ((48 <=? n)%nat && (n <=? 57)%nat)%bool then Some (Z.of_nat (n - 48)) else None.

(** Exactly [k] decimal digits. *)
Fixpoint digits (k : nat) (acc : Z) (s : string) : option (Z * string) :=
  match k with
  | O => Some (acc, s)
  | S k' =>
      match s with
      | String a r =>
          match digit_value a with
          | Some d => digits k' (10 * acc + d) r
          | None => None
          end
      | EmptyString => None
      end
  end.

Definition expect (p : string) (s : string) : option string := Js.strip_prefix p s.

Definition time_value (y m d hh mm ss ms : Z) : option Z :=
  if ((1 <=? m) && (m <=? 12) && (1 <=? d) && (d <=? 31) && (hh <=? 23) && (mm <=? 59)
      && (ss <=? 59))%bool
  then Some (Date.days_from_civil y m d * Date.msPerDay
             + hh * 3600000 + mm * 60000 + ss * 1000 + ms)
  else None.

(** [HH:mm:ss]. *)
Definition clock (s : string) : option (Z * Z * Z * string) :=
  '(hh, s) ← digits 2 0 s;
  s ← expect ":" s;
  '(mm, s) ← digits 2 0 s;
  s ← expect ":" s;
  '(ss, s) ← digits 2 0 s;
  Some (hh, mm, ss, s).

Definition iso (s : string) : option Z :=
  '(y, s) ← digits 4 0 s;
  s ← expect "-" s;
  '(m, s) ← digits 2 0 s;
  s ← expect "-" s;
  '(d, s) ← digits 2 0 s;
  s ← expect "T" s;
  '(hh, mm, ss, s) ← clock s;
  match s with
  | "Z"%string => time_value y m d hh mm ss 0
  | String "." s' =>
      '(ms, s') ← digits 3 0 s';
      match s' with
      | "Z"%string => time_value y m d hh mm ss ms
      | _ => None
      end
  | _ => None
  end.

Fixpoint index_of (x : string) (l : list string) (i : Z) : option Z :=
  match l with
  | [] => None
  | y :: l' => if String.eqb x y then Some i else index_of x l' (i + 1)
  end.

(** "Www, DD Mmm YYYY HH:MM:SS GMT". *)
Definition utc (s : string) : option Z :=
  let wd := substring 0 3 s in
  let s := substring 3 (String.length s - 3) s in
  _ ← index_of wd ["Sun"; "Mon"; "Tue"; "Wed"; "Thu"; "Fri"; "Sat"]%string 0;
  s ← expect ", " s;
  '(d, s) ← digits 2 0 s;
  s ← expect " " s;
  m ← index_of (substring 0 3 s) Date.month_names 1;
  let s := substring 3 (String.length s - 3) s in
  s ← expect " " s;
  '(y, s) ← digits 4 0 s;
  s ← expect " " s;
  '(hh, mm, ss, s) ← clock s;
  match s with
  | " GMT"%string => time_value y m d hh mm ss 0
  | _ => None
  end.

Definition parse (s : string) : option Z :=
  match iso s with
  | Some t => Some t
  | None => utc s
  end.

End DateParse.

(** ** XML: the [sax] scanner and the [xml2js] builder

    [parseExistingFeed] reads the previous feed with [xml2js], which drives the
    [sax] parser in strict mode and builds objects from its events.  Both are
    libraries, not code of the repository; this is a reference model of the
    part of XML the feed is written in: the XML declaration, elements with
    quoted attributes, character data with the five predefined entities, and
    CDATA sections.  Where a document leaves that part (comments, DOCTYPE,
    numeric or unknown entities, names outside ASCII, white space after [<])
    the scanner emits [Unmodelled] and the model makes no statement. *)

Module Sax.

Inductive sax_event :=
| OpenTag (name : string) (attrs : list (string * string))
| CloseTag (name : string)
| Text (s : string)
| CData (s : string)
| SaxError
| Unmodelled.

(** The states of the scanner, named as in [sax]. *)
Inductive mode :=
| TEXT (textNode : string)
| TEXT_ENTITY (textNode entity : string)
| OPEN_WAKA
| SGML_DECL (sgmlDecl : string)
| CDATA (cdata : string)
| CDATA_ENDING (cdata : string)
| CDATA_ENDING_2 (cdata : string)
| PROC_INST
| PROC_INST_ENDING
| OPEN_TAG (tagName : string)
| OPEN_TAG_SLASH (tagName : string) (attrs : list (string * string))
| ATTRIB (tagName : string) (attrs : list (string * string))
| ATTRIB_NAME (tagName : string) (attrs : list (string * string)) (attribName : string)
| ATTRIB_NAME_SAW_WHITE (tagName : string) (attrs : list (string * string)) (attribName : string)
| ATTRIB_VALUE (tagName : string) (attrs : list (string * string)) (attribName : string)
| ATTRIB_VALUE_QUOTED (tagName : string) (attrs : list (string * string))
    (attribName : string) (q : ascii) (attribValue : string)
| ATTRIB_VALUE_ENTITY_Q (tagName : string) (attrs : list (string * string))
    (attribName : string) (q : ascii) (attribValue entity : string)
| ATTRIB_VALUE_CLOSED (tagName : string) (attrs : list (string * string))
| CLOSE_TAG (tagName : string)
| CLOSE_TAG_SAW_WHITE (tagName : string)
| HALTED.

Definition code (c : ascii) : nat := nat_of_ascii c.

Definition isWhitespace (c : ascii) : bool :=
  let n := code c in ((n =? 32) || (n =? 10) || (n =? 13) || (n =? 9))%nat.

Definition isQuote (c : ascii) : bool :=
  let n := code c in ((n =? 34) || (n =? 39))%nat.

Definition isAsciiChar (c : ascii) : bool := (code c <? 128)%nat.

Definition isLetter (c : ascii) : bool :=
  let n := code c in ((65 <=? n) && (n <=? 90) || (97 <=? n) && (n <=? 122))%nat.

Definition isDigit (c : ascii) : bool :=
  let n := code c in ((48 <=? n) && (n <=? 57))%nat.

(** [nameStart] and [nameBody] on ASCII. *)
Definition nameStart (c : ascii) : bool :=
  isLetter c || Ascii.eqb c ":" || Ascii.eqb c "_".

Definition nameBody (c : ascii) : bool :=
  nameStart c || isDigit c || Ascii.eqb c "-" || Ascii.eqb c ".".

Definition entityStart (c : ascii) : bool := nameStart c || Ascii.eqb c "#".
Definition entityBody (c : ascii) : bool := nameBody c || Ascii.eqb c "#".

Definition snoc (s : string) (c : ascii) : string := s +:+ String c EmptyString.

(** [parseEntity] on the predefined entities, looked up as written and then
    in lower case. *)
Definition parseEntity (entity : string) : option string :=
  let e := Js.toLowerCase entity in
  if String.eqb e "amp" then Some "&"
  else if String.eqb e "lt" then Some "<"
  else if String.eqb e "gt" then Some ">"
  else if String.eqb e "quot" then Some Js.dq
  else if String.eqb e "apos" then Some "'"
  else None.

(** [attrib]: a repeated attribute name is dropped. *)
Definition attrib (attrs : list (string * string)) (n v : string) : list (string * string) :=
  if existsb (fun kv => String.eqb (fst kv) n) attrs then attrs else attrs ++ [(n, v)].

(** [closeText]: the pending text node is emitted if it is not empty. *)
Definition closeText (textNode : string) : list sax_event :=
  if String.eqb textNode "" then [] else [Text textNode].

Definition fail : mode * list sax_event := (HALTED, [SaxError]).
Definition unmodelled : mode * list sax_event := (HALTED, [Unmodelled]).

(** One character: the next state and the events emitted. *)
Definition step (m : mode) (c : ascii) : mode * list sax_event :=
  match m with
  | TEXT t =>
      if Ascii.eqb c "<" then (OPEN_WAKA, closeText t)
      else if Ascii.eqb c "&" then (TEXT_ENTITY t "", [])
      else (TEXT (snoc t c), [])
  | TEXT_ENTITY t e =>
      if Ascii.eqb c ";" then
        match parseEntity e with
        | Some d => (TEXT (t +:+ d), [])
        | None => unmodelled
        end
      else if negb (isAsciiChar c) then unmodelled
      else if (if String.eqb e "" then entityStart c else entityBody c)
      then (TEXT_ENTITY t (snoc e c), [])
      else fail
  | OPEN_WAKA =>
      if Ascii.eqb c "!" then (SGML_DECL "", [])
      else if isWhitespace c then unmodelled
      else if negb (isAsciiChar c) then unmodelled
      else if nameStart c then (OPEN_TAG (String c ""), [])
      else if Ascii.eqb c "/" then (CLOSE_TAG "", [])
      else if Ascii.eqb c "?" then (PROC_INST, [])
      else fail
  | SGML_DECL s =>
      let s' := snoc s c in
      if String.eqb s' "[CDATA[" then (CDATA "", [])
      else if Js.startsWith s' "[CDATA[" then (SGML_DECL s', [])
      else unmodelled
  | CDATA d =>
      if Ascii.eqb c "]" then (CDATA_ENDING d, []) else (CDATA (snoc d c), [])
  | CDATA_ENDING d =>
      if Ascii.eqb c "]" then (CDATA_ENDING_2 d, [])
      else (CDATA (snoc (snoc d "]") c), [])
  | CDATA_ENDING_2 d =>
      if Ascii.eqb c ">" then (TEXT "", if String.eqb d "" then [] else [CData d])
      else if Ascii.eqb c "]" then (CDATA_ENDING_2 (snoc d "]"), [])
      else (CDATA (snoc (snoc (snoc d "]") "]") c), [])
  | PROC_INST =>
      if Ascii.eqb c "?" then (PROC_INST_ENDING, []) else (PROC_INST, [])
  | PROC_INST_ENDING =>
      if Ascii.eqb c ">" then (TEXT "", []) else (PROC_INST, [])
  | OPEN_TAG n =>
      if negb (isAsciiChar c) then unmodelled
      else if nameBody c then (OPEN_TAG (snoc n c), [])
      else if Ascii.eqb c ">" then (TEXT "", [OpenTag n []])
      else if Ascii.eqb c "/" then (OPEN_TAG_SLASH n [], [])
      else if isWhitespace c then (ATTRIB n [], [])
      else fail
  | OPEN_TAG_SLASH n a =>
      if Ascii.eqb c ">" then (TEXT "", [OpenTag n a; CloseTag n]) else fail
  | ATTRIB n a =>
      if isWhitespace c then (ATTRIB n a, [])
      else if Ascii.eqb c ">" then (TEXT "", [OpenTag n a])
      else if Ascii.eqb c "/" then (OPEN_TAG_SLASH n a, [])
      else if negb (isAsciiChar c) then unmodelled
      else if nameStart c then (ATTRIB_NAME n a (String c ""), [])
      else fail
  | ATTRIB_NAME n a an =>
      if Ascii.eqb c "=" then (ATTRIB_VALUE n a an, [])
      else if Ascii.eqb c ">" then fail
      else if isWhitespace c then (ATTRIB_NAME_SAW_WHITE n a an, [])
      else if negb (isAsciiChar c) then unmodelled
      else if nameBody c then (ATTRIB_NAME n a (snoc an c), [])
      else fail
  | ATTRIB_NAME_SAW_WHITE n a an =>
      if Ascii.eqb c "=" then (ATTRIB_VALUE n a an, [])
      else if isWhitespace c then (ATTRIB_NAME_SAW_WHITE n a an, [])
      else fail
  | ATTRIB_VALUE n a an =>
      if isWhitespace c then (ATTRIB_VALUE n a an, [])
      else if isQuote c then (ATTRIB_VALUE_QUOTED n a an c "", [])
      else fail
  | ATTRIB_VALUE_QUOTED n a an q v =>
      if Ascii.eqb c q then (ATTRIB_VALUE_CLOSED n (attrib a an v), [])
      else if Ascii.eqb c "&" then (ATTRIB_VALUE_ENTITY_Q n a an q v "", [])
      else (ATTRIB_VALUE_QUOTED n a an q (snoc v c), [])
  | ATTRIB_VALUE_ENTITY_Q n a an q v e =>
      if Ascii.eqb c ";" then
        match parseEntity e with
        | Some d => (ATTRIB_VALUE_QUOTED n a an q (v +:+ d), [])
        | None => unmodelled
        end
      else if negb (isAsciiChar c) then unmodelled
      else if (if String.eqb e "" then entityStart c else entityBody c)
      then (ATTRIB_VALUE_ENTITY_Q n a an q v (snoc e c), [])
      else fail
  | ATTRIB_VALUE_CLOSED n a =>
      if isWhitespace c then (ATTRIB n a, [])
      else if Ascii.eqb c ">" then (TEXT "", [OpenTag n a])
      else if Ascii.eqb c "/" then (OPEN_TAG_SLASH n a, [])
      else fail
  | CLOSE_TAG n =>
      if String.eqb n "" then
        if isWhitespace c then (CLOSE_TAG n, [])
        else if negb (isAsciiChar c) then unmodelled
        else if nameStart c then (CLOSE_TAG (String c ""), [])
        else fail
      else if Ascii.eqb c ">" then (TEXT "", [CloseTag n])
      else if negb (isAsciiChar c) then unmodelled
      else if nameBody c then (CLOSE_TAG (snoc n c), [])
      else if isWhitespace c then (CLOSE_TAG_SAW_WHITE n, [])
      else fail
  | CLOSE_TAG_SAW_WHITE n =>
      if isWhitespace c then (CLOSE_TAG_SAW_WHITE n, [])
      else if Ascii.eqb c ">" then (TEXT "", [CloseTag n])
      else fail
  | HALTED => (HALTED, [])
  end.

(** [end]: the pending text is flushed; anywhere but in text the document
    ends unexpectedly. *)
Definition finish (m : mode) : list sax_event :=
  match m with
  | TEXT t => closeText t
  | HALTED => []
  | _ => [SaxError]
  end.

(** [write(str).close()]: the events of a document, in order. *)
Fixpoint events (m : mode) (s : string) : list sax_event :=
  match s with
  | EmptyString => finish m
  | String c s' => let '(m', es) := step m c in es ++ events m' s'
  end.

(** The state after a piece of a document, and the events the piece emits. *)
Fixpoint run (m : mode) (s : string) : mode * list sax_event :=
  match s with
  | EmptyString => (m, [])
  | String c s' =>
      let '(m1, es1) := step m c in
      let '(m2, es2) := run m1 s' in (m2, es1 ++ es2)
  end.

(** [w] between two tags is character data, and reads as [d]: the scanner
    goes through it without an event and stays in text. *)
Definition chardata (w : string) : option string :=
  match run (TEXT "") w with
  | (TEXT d, []) => Some d
  | _ => None
  end.

End Sax.

Module Xml2js.

Import Sax.

(** A value [xml2js] builds with its default options: a string for an
    element with neither attributes nor child elements, else an object with
    the text under [_] (when it is not blank), the attributes under [$] and,
    per child name, the array of the children of that name (never empty:
    its first element and the rest). *)
#[local] Unset Elimination Schemes.
Inductive xvalue :=
| XStr (s : string)
| XObj (text : option string) (attrs : list (string * string))
    (children : list (string * (xvalue * list xvalue))).
#[local] Set Elimination Schemes.

(** An open element on the builder's stack. *)
Record frame := {
  f_name : string;
  f_attrs : list (string * string);
  f_text : string;
  f_cdata : bool;
  f_children : list (string * (xvalue * list xvalue))
}.

(** What the parse promise settles to: resolved with [null] or with
    [{ root: value }], or rejected. *)
Inductive settled :=
| Resolved (result : option (string * xvalue))
| Rejected.

(** [/^\s*$/]. *)
Definition blank (s : string) : bool := String.eqb (Js.trimStart s) "".

(** Names that meet a key the builder or [Object.prototype] already uses. *)
Definition reserved : list string :=
  ["_"; "$"; "cdata"; "constructor"; "hasOwnProperty"; "isPrototypeOf";
   "propertyIsEnumerable"; "toLocaleString"; "toString"; "valueOf"; "__proto__";
   "__defineGetter__"; "__defineSetter__"; "__lookupGetter__"; "__lookupSetter__"].

Definition is_reserved (n : string) : bool :=
  existsb (String.eqb n) reserved.

(** [onclosetag]: the value of the element that closes. *)
Definition value_of (f : frame) : xvalue :=
  match f_attrs f, f_children f with
  | [], [] => XStr (f_text f)
  | _, _ =>
      if blank (f_text f) && negb (f_cdata f)
      then XObj None (f_attrs f) (f_children f)
      else XObj (Some (f_text f)) (f_attrs f) (f_children f)
  end.

(** [assignOrPush]: every child name holds an array. *)
Fixpoint assignOrPush (cs : list (string * (xvalue * list xvalue))) (n : string) (v : xvalue)
  : list (string * (xvalue * list xvalue)) :=
  match cs with
  | [] => [(n, (v, []))]
  | (k, (v0, vs)) :: cs' =>
      if String.eqb k n then (k, (v0, vs ++ [v])) :: cs'
      else (k, (v0, vs)) :: assignOrPush cs' n v
  end.

Definition add_child (f : frame) (n : string) (v : xvalue) : frame :=
  {| f_name := f_name f; f_attrs := f_attrs f; f_text := f_text f;
     f_cdata := f_cdata f; f_children := assignOrPush (f_children f) n v |}.

Definition add_text (f : frame) (s : string) (cdata : bool) : frame :=
  {| f_name := f_name f; f_attrs := f_attrs f; f_text := f_text f +:+ s;
     f_cdata := f_cdata f || cdata; f_children := f_children f |}.

Definition open (n : string) (a : list (string * string)) : frame :=
  {| f_name := n; f_attrs := a; f_text := ""; f_cdata := false; f_children := [] |}.

(** The handlers, over the stack of open elements.  The promise settles at
    the first error or when the root element closes; what follows it in the
    document is not looked at.  [None]: the document leaves the model. *)
Fixpoint build (stack : list frame) (es : list sax_event) : option settled :=
  match es with
  | [] =>
      match stack with
      | [] => Some (Resolved None)
      | _ :: _ => Some Rejected
      end
  | e :: es' =>
      match e with
      | SaxError => Some Rejected
      | Unmodelled => None
      | OpenTag n a =>
          if is_reserved n || existsb (fun kv => is_reserved (fst kv)) a then None
          else build (open n a :: stack) es'
      | Text s =>
          match stack with
          | [] => if forallb isWhitespace (list_ascii_of_string s) then build stack es'
                  else Some Rejected
          | f :: stack' => build (add_text f s false :: stack') es'
          end
      | CData s =>
          match stack with
          | [] => build stack es'
          | f :: stack' => build (add_text f s true :: stack') es'
          end
      | CloseTag n =>
          match stack with
          | [] => Some Rejected
          | f :: stack' =>
              if negb (String.eqb (f_name f) n) then Some Rejected
              else
                match stack' with
                | [] => Some (Resolved (Some (n, value_of f)))
                | p :: stack'' => build (add_child p n (value_of f) :: stack'') es'
                end
          end
      end
  end.

(** [stripBOM]. *)
Definition stripBOM (s : string) : string :=
  Js.remove_prefix (String (ascii_of_nat 239) (String (ascii_of_nat 187)
                      (String (ascii_of_nat 191) EmptyString))) s.

(** [parseStringPromise(str)] on the modelled part of XML. *)
Definition parse (str : string) : option settled :=
  if blank str then Some (Resolved None)
  else build [] (events (TEXT "") (stripBOM str)).

(** Property access on a built value: [v.name] for a child name. *)
Definition child (v : xvalue) (n : string) : option (xvalue * list xvalue) :=
  match v with
  | XStr _ => None
  | XObj _ _ cs =>
      match find (fun kv => String.eqb (fst kv) n) cs with
      | Some (_, vs) => Some vs
      | None => None
      end
  end.

(** [String(v)]. *)
Definition to_string (v : xvalue) : string :=
  match v with
  | XStr s => s
  | XObj _ _ _ => "[object Object]"
  end.

End Xml2js.
(** ** The platform

    [md5hex s] is [crypto.createHash('md5').update(s).digest('hex')],
    [Date_parse s] the time value of [new Date(s)] ([None] for NaN), and
    [parseString] what [xml2js]'s [parseStringPromise] settles to; on the
    documents the reference model covers it is the model's result. *)

Class Runtime := {
  md5hex : string → string;
  Date_parse : string → option Z;
  parseString : string → Xml2js.settled;
  parseString_model : ∀ s r, Xml2js.parse s = Some r → parseString s = r
}.

(** ** Data *)

(** A post of the API: each property a string, or absent. *)
Record RawPost := {
  post_title : option string;
  post_excerpt : option string;
  post_summary : option string;
  post_url_path : option string;
  post_first_published_at : option string
}.

Record FeedItem := {
  title : string;
  link : string;
  description : string;
  pubDate : string;
  guid : string
}.

(** The object an endpoint answers with, as far as the scripts read it:
    [api_posts] is [data.posts] when that is an array, and [api_content_items]
    is [data.content.items] when [data.content] holds an array there. *)
Record ApiData := {
  api_posts : option (list RawPost);
  api_content_items : option (list RawPost)
}.

(** A JSON value, as far as the scripts tell values apart: [null], an
    object, or anything else (a number, a string, a boolean, an array). *)
Inductive json_value :=
| JsonNull
| JsonOther
| JsonObject (data : ApiData).

(** What [JSON.parse] makes of a response body: it throws a SyntaxError
    with a message, or returns a value. *)
Inductive parsed_json :=
| JsonSyntaxError (message : string)
| JsonValue (v : json_value).

(** [(data.posts && Array.isArray(data.posts)) ? data.posts
      : ((data.content && data.content.items) || [])] *)
Definition posts_of (data : ApiData) : list RawPost :=
  match api_posts data with
  | Some ps => ps
  | None =>
      match api_content_items data with
      | Some items => items
      | None => []
      end
  end.

(** What a run does to the world, in order. *)
Inductive level := Info | Warn | Error.

(** [Console]: the arguments printed, an error object among them left out. *)
Inductive event :=
| Console (l : level) (args : list string)
| Request (url : string) (timeoutMs : option Z)
| Sleep (ms : Z)
| WriteFile (path : string) (content : string).

(** The files a run writes, in order. *)
Definition written (es : list event) : list (string * string) :=
  omap (fun e => match e with WriteFile p c => Some (p, c) | _ => None end) es.

(** The requests a run makes, in order. *)
Definition requests (es : list event) : list (string * option Z) :=
  omap (fun e => match e with Request u t => Some (u, t) | _ => None end) es.

(** The waits of a run, in order. *)
Definition sleeps (es : list event) : list Z :=
  omap (fun e => match e with Sleep ms => Some ms | _ => None end) es.

(** The warnings a run logs. *)
Definition warnings (es : list event) : list (list string) :=
  omap (fun e => match e with Console Warn args => Some args | _ => None end) es.

Definition apiURLs : list string :=
  ["https://bonikbarta.com/api/post-filters/41?root_path=00000000010000000001";
   "https://bonikbarta.com/api/post-filters/52?root_path=00000000010000000001"].

Definition baseURL : string := "https://bonikbarta.com".

(** The channel header both variants write: the part before the build date,
    the date, and the part after it. *)
Definition rss_header_start : string :=
  "<?xml version=" +:+ Js.dq +:+ "1.0" +:+ Js.dq +:+ " encoding=" +:+ Js.dq +:+ "UTF-8" +:+ Js.dq +:+ "?>" +:+ Js.nl +:+
  "<rss version=" +:+ Js.dq +:+ "2.0" +:+ Js.dq +:+ " xmlns:atom=" +:+ Js.dq +:+ "http://www.w3.org/2005/Atom" +:+ Js.dq +:+ ">" +:+ Js.nl +:+
  "  <channel>" +:+ Js.nl +:+
  "    <title>Bonikbarta Combined Feed</title>" +:+ Js.nl +:+
  "    <link>https://harmonious-froyo-665879.netlify.app/</link>" +:+ Js.nl +:+
  "    <atom:link href=" +:+ Js.dq +:+ "https://harmonious-froyo-665879.netlify.app/feed.xml" +:+ Js.dq +:+ " rel=" +:+ Js.dq +:+ "self" +:+ Js.dq +:+ " type=" +:+ Js.dq +:+ "application/rss+xml" +:+ Js.dq +:+ "/>" +:+ Js.nl +:+
  "    <description>Latest articles from Bonikbarta</description>" +:+ Js.nl +:+
  "    <language>bn</language>" +:+ Js.nl +:+
  "    <lastBuildDate>".

Definition rss_header_end : string :=
  "</lastBuildDate>" +:+ Js.nl +:+
  "    <generator>GitHub Actions RSS Generator</generator>" +:+ Js.nl.

Definition rss_header (nowUTC : string) : string :=
  rss_header_start +:+ nowUTC +:+ rss_header_end.

Definition rss_item (title link description pubDate guid : string) : string :=
  "    <item>" +:+ Js.nl +:+
  "      <title>" +:+ title +:+ "</title>" +:+ Js.nl +:+
  "      <link>" +:+ link +:+ "</link>" +:+ Js.nl +:+
  "      <description><![CDATA[" +:+ description +:+ "]]></description>" +:+ Js.nl +:+
  "      <pubDate>" +:+ pubDate +:+ "</pubDate>" +:+ Js.nl +:+
  "      <guid isPermaLink=" +:+ Js.dq +:+ "false" +:+ Js.dq +:+ ">" +:+ guid +:+ "</guid>" +:+ Js.nl +:+
  "    </item>" +:+ Js.nl.

Definition rss_footer : string := "  </channel>" +:+ Js.nl +:+ "</rss>".

(** [(item.title || "No title").replace(/&/g,'&amp;').replace(/</g,'&lt;')
      .replace(/>/g,'&gt;')] *)
Definition escape_title (t : option string) : string :=
  Js.replace_char ">" "&gt;"
    (Js.replace_char "<" "&lt;"
       (Js.replace_char "&" "&amp;" (Js.or_else t "No title"))).

(** [baseURL + (item.url_path || "/").replace(/^\/home/, "")] *)
Definition article_url (p : option string) : string :=
  baseURL +:+ Js.remove_prefix "/home" (Js.or_else p "/").

(** [item.first_published_at ? new Date(item.first_published_at).toUTCString()
      : nowUTC] *)
Definition pub_date `{Runtime} (nowUTC : string) (fpa : option string) : string :=
  match fpa with
  | Some s => if String.eqb s "" then nowUTC else Date.render (Date_parse s)
  | None => nowUTC
  end.

(** [item.excerpt || item.summary || "No description available"] *)
Definition describe (item : RawPost) : string :=
  Js.or_else (post_excerpt item) (Js.or_else (post_summary item) "No description available").

(** ** generate-rss.js: the Playwright variant *)

Module Playwright.

Import Xml2js.

Definition feedFile : string := "feed.xml".
Definition maxItems : nat := 500.

(** [feed.xml] before the run. *)
Inductive feed_file :=
| NoFile
| Unreadable
| FileContent (xml : string).

(** What [page.evaluate] gives for a URL: it rejects, or resolves to the body
    text, [json] being what [JSON.parse] makes of that text. *)
Inductive page_result :=
| EvaluateRejects
| EvaluateResolves (text : string) (json : parsed_json).

Section WithRuntime.
Context `{Runtime}.

(** The object literal of the [map] callback; [None] is a TypeError. *)
Definition item_of (it : xvalue) : option FeedItem :=
  t ← child it "title";
  l ← child it "link";
  d ← child it "description";
  d' ← match fst d with
       | XStr s => Some (Js.remove_all "<![CDATA[" "]]>" s)
       | XObj _ _ _ => None
       end;
  p ← child it "pubDate";
  g ← child it "guid";
  Some {| title := to_string (fst t);
          link := to_string (fst l);
          description := d';
          pubDate := to_string (fst p);
          guid := match fst g with
                  | XObj (Some s) _ _ => if String.eqb s "" then to_string (fst g) else s
                  | v => to_string v
                  end |}.

Fixpoint items_of (its : list xvalue) : option (list FeedItem) :=
  match its with
  | [] => Some []
  | it :: its' =>
      i ← item_of it;
      is' ← items_of its';
      Some (i :: is')
  end.

Definition invalid_structure : list FeedItem * list event :=
  ([], [Console Info ["⚠️ Invalid feed structure, starting fresh"]]).

Definition parse_failed : list FeedItem * list event :=
  ([], [Console Error ["❌ Error parsing existing feed:"];
        Console Info ["🔄 Starting with fresh feed"]]).

(** [result.rss.channel[0].item], when [result.rss], [result.rss.channel]
    and the array itself are there. *)
Definition feed_items (root : string) (v : xvalue) : option (xvalue * list xvalue) :=
  if negb (String.eqb root "rss") then None
  else
    match v with
    | XStr EmptyString => None
    | _ =>
        match child v "channel" with
        | None => None
        | Some (channel0, _) => child channel0 "item"
        end
    end.

Definition parseExistingFeed (file : feed_file) : list FeedItem * list event :=
  match file with
  | NoFile => ([], [Console Info ["📄 No existing feed.xml found, will create new one"]])
  | Unreadable => parse_failed
  | FileContent xmlContent =>
      match parseString xmlContent with
      | Rejected => parse_failed
      | Resolved None => parse_failed
      | Resolved (Some (root, v)) =>
          match feed_items root v with
          | None => invalid_structure
          | Some (it, its) =>
              match items_of (it :: its) with
              | None => parse_failed
              | Some items =>
                  (items,
                   [Console Info ["📖 Loaded " +:+ Js.decimal (Z.of_nat (length items))
                                  +:+ " existing items from feed"]])
              end
          end
      end
  end.

Definition generateGUID (item : RawPost) : string :=
  let str := Js.or_else (post_title item) ""
             +:+ Js.or_else (post_excerpt item) (Js.or_else (post_summary item) "")
             +:+ Js.or_else (post_first_published_at item) "" in
  md5hex str.

(** [now] is the clock reading of [new Date()]. *)
Definition itemToRSSItem (now : Z) (item : RawPost) : FeedItem :=
  let nowUTC := Date.toUTCString now in
  {| title := escape_title (post_title item);
     link := article_url (post_url_path item);
     description := describe item;
     pubDate := pub_date nowUTC (post_first_published_at item);
     guid := generateGUID item |}.

Definition generateRSS (now : Z) (items : list FeedItem) : string :=
  let nowUTC := Date.toUTCString now in
  fold_left
    (fun rss item =>
       rss +:+ rss_item (title item) (link item) (description item) (pubDate item) (guid item))
    items (rss_header nowUTC)
  +:+ rss_footer.

Definition fetchJSONWithPlaywright (url : string) (r : page_result)
  : option (list RawPost) * list event :=
  let failed := (None, [Console Info ["→ Fetching:"; url]; Request url None;
                        Console Error ["❌ Failed to fetch:"; url]]) in
  let no_items := (None, [Console Info ["→ Fetching:"; url]; Request url None;
                          Console Warn ["⚠️ No items in response:"; url]]) in
  match r with
  | EvaluateRejects => failed
  | EvaluateResolves response json =>
      if negb (Js.startsWith "{" (Js.trimStart response))
      then (None, [Console Info ["→ Fetching:"; url]; Request url None;
                   Console Error ["⚠️ Non-JSON response from"; url]])
      else
        match json with
        | JsonSyntaxError _ => failed
        | JsonValue JsonNull => failed
        | JsonValue JsonOther => no_items
        | JsonValue (JsonObject data) =>
            let items := posts_of data in
            if (length items =? 0)%nat then no_items
            else (Some items,
                  [Console Info ["→ Fetching:"; url]; Request url None;
                   Console Info ["✅ " +:+ Js.decimal (Z.of_nat (length items)) +:+ " posts found"]])
        end
  end.

(** The variables of [main] that change while the endpoints are visited;
    [ticks] counts the readings of the clock and [trace] is what the run has
    done so far. *)
Record state := {
  existingGuids : gset string;
  existingLinks : gset string;
  newItems : list FeedItem;
  ticks : nat;
  trace : list event
}.

(** The body of [for (const post of items)]. *)
Definition visit_post (clock : nat → Z) (st : state) (post : RawPost) : state :=
  let rssItem := itemToRSSItem (clock (ticks st)) post in
  if negb (bool_decide (guid rssItem ∈ existingGuids st))
     && negb (bool_decide (link rssItem ∈ existingLinks st))
  then {| existingGuids := {[guid rssItem]} ∪ existingGuids st;
          existingLinks := {[link rssItem]} ∪ existingLinks st;
          newItems := newItems st ++ [rssItem];
          ticks := S (ticks st);
          trace := trace st |}
  else {| existingGuids := existingGuids st;
          existingLinks := existingLinks st;
          newItems := newItems st;
          ticks := S (ticks st);
          trace := trace st |}.

Definition log (st : state) (es : list event) : state :=
  {| existingGuids := existingGuids st; existingLinks := existingLinks st;
     newItems := newItems st; ticks := ticks st; trace := trace st ++ es |}.

(** The body of [for (const url of apiURLs)]. *)
Definition visit_url (page : string → page_result) (clock : nat → Z)
    (st : state) (url : string) : state :=
  let '(items, es) := fetchJSONWithPlaywright url (page url) in
  match items with
  | None => log (log st es) [Console Warn ["⚠️ Skipping " +:+ url +:+ " due to error"]]
  | Some items => log (fold_left (visit_post clock) items (log st es)) [Sleep 1000]
  end.

(** [(a, b) => new Date(b.pubDate) - new Date(a.pubDate)] *)
Definition newest_first (a b : FeedItem) : option Z :=
  Date.minus (Date_parse (pubDate b)) (Date_parse (pubDate a)).

(** The state when the loop over the endpoints is done. *)
Definition collected (file : feed_file) (page : string → page_result) (clock : nat → Z)
  : state :=
  let '(existingItems, es) := parseExistingFeed file in
  fold_left (visit_url page clock) apiURLs
    {| existingGuids := list_to_set (map guid existingItems);
       existingLinks := list_to_set (map link existingItems);
       newItems := [];
       ticks := 0;
       trace := es |}.

(** [finalItems]: what the run renders. *)
Definition finalItems (file : feed_file) (page : string → page_result) (clock : nat → Z)
  : list FeedItem :=
  let existingItems := fst (parseExistingFeed file) in
  let st := collected file page clock in
  let allItems := newItems st ++ existingItems in
  take maxItems (Js.sort newest_first allItems).

(** [main]: everything the run does, in order. *)
Definition main (file : feed_file) (page : string → page_result) (clock : nat → Z)
  : list event :=
  let existingItems := fst (parseExistingFeed file) in
  let st := collected file page clock in
  let final := finalItems file page clock in
  let rssXML := generateRSS (clock (ticks st)) final in
  trace st
  ++ [Console Info ["🆕 Found " +:+ Js.decimal (Z.of_nat (length (newItems st))) +:+ " new items"];
      WriteFile feedFile rssXML;
      Console Info ["✅ RSS feed updated with " +:+ Js.decimal (Z.of_nat (length final))
                    +:+ " total items (" +:+ Js.decimal (Z.of_nat (length (newItems st)))
                    +:+ " new, " +:+ Js.decimal (Z.of_nat (length existingItems))
                    +:+ " existing, keeping latest " +:+ Js.decimal (Z.of_nat maxItems) +:+ ")"]].

End WithRuntime.

End Playwright.

(** ** The second file: the direct HTTP variant *)

Module Direct.

(** One call of [fetch] inside [fetchJsonSafe]: it rejects with an error of
    some message (a network failure, or the abort of the time-out), or
    resolves to a response. [text] is the body ([''] when reading it fails)
    and [json] what [JSON.parse] makes of it. *)
Inductive attempt :=
| FetchRejects (message : string)
| Responds (status : Z) (contentType : string) (text : string) (json : parsed_json).

(** A thrown error: its message, and whether it carries a non-empty
    [snippet]. *)
Record error := {
  message : string;
  snippet : bool
}.

Inductive fetched :=
| Returned (data : json_value)
| Thrown (last : option error).

Definition timeoutMs : Z := 10000.
Definition maxRetries : nat := 3.

(** The body of the [try] block for one response. *)
Definition attempt_result (a : attempt) : json_value + error :=
  match a with
  | FetchRejects m => inr {| message := m; snippet := false |}
  | Responds status ct text json =>
      if Js.includes "html" ct || Js.startsWith "<" (Js.trimStart text)
      then inr {| message := "HTML response status=" +:+ Js.decimal status;
                  snippet := negb (String.eqb text "") |}
      else
        match json with
        | JsonSyntaxError m => inr {| message := m; snippet := false |}
        | JsonValue v => inl v
        end
  end.

(** [/timeout|AbortError|ECONNRESET|ENOTFOUND|status=5|HTML response/i
      .test(String(err.message))] *)
Definition transient_patterns : list string :=
  ["timeout"; "AbortError"; "ECONNRESET"; "ENOTFOUND"; "status=5"; "HTML response"].

Definition transient (msg : string) : bool :=
  existsb (fun p => Js.includes (Js.toLowerCase p) (Js.toLowerCase msg)) transient_patterns.

(** [200 * Math.pow(2, i)] *)
Definition backoff (i : nat) : Z := 200 * 2 ^ Z.of_nat i.

(** The [for] loop of [fetchJsonSafe] from attempt [i] on, [fuel] attempts
    being left; [net i] is what the [i]-th call of [fetch] does. *)
Fixpoint attempts (url : string) (net : nat → attempt) (fuel : nat) (i : nat)
    (last : option error) : fetched * list event :=
  match fuel with
  | O => (Thrown last, [])
  | S fuel' =>
      match attempt_result (net i) with
      | inl data => (Returned data, [Request url (Some timeoutMs)])
      | inr err =>
          if negb (transient (message err)) || (i =? maxRetries)%nat
          then (Thrown (Some err), [Request url (Some timeoutMs)])
          else
            let '(r, es) := attempts url net fuel' (S i) (Some err) in
            (r, Request url (Some timeoutMs) :: Sleep (backoff i) :: es)
      end
  end.

Definition fetchJsonSafe (url : string) (net : nat → attempt) : fetched * list event :=
  attempts url net maxRetries 1 None.

(** The body of [for (const url of apiURLs)] in [fetchAll]. A [null]
    answer makes [data.posts] throw; the message of that TypeError is not
    recorded. *)
Definition load (net : string → nat → attempt) (acc : list RawPost * list event)
    (url : string) : list RawPost * list event :=
  let '(allItems, log) := acc in
  let '(r, es) := fetchJsonSafe url (net url) in
  match r with
  | Returned (JsonObject data) => (allItems ++ posts_of data, log ++ es)
  | Returned JsonOther => (allItems ++ [], log ++ es)
  | Returned JsonNull =>
      (allItems, log ++ es ++ [Console Error ["Failed to load from"; url]])
  | Thrown (Some err) =>
      (allItems,
       log ++ es ++ [Console Error ["Failed to load from"; url; message err]]
           ++ (if snippet err then [Console Error ["snippet:"]] else []))
  | Thrown None =>
      (allItems, log ++ es ++ [Console Error ["Failed to load from"; url]])
  end.

Section WithRuntime.
Context `{Runtime}.

(** [new Date(post.first_published_at)]: invalid when the property is absent. *)
Definition published (post : RawPost) : option Z :=
  match post_first_published_at post with
  | Some s => Date_parse s
  | None => None
  end.

(** [(a,b) => new Date(b.first_published_at) - new Date(a.first_published_at)] *)
Definition newest_first (a b : RawPost) : option Z :=
  Date.minus (published b) (published a).

Definition fetchAll (net : string → nat → attempt) : list RawPost * list event :=
  let '(allItems, log) := fold_left (load net) apiURLs ([], []) in
  (Js.sort newest_first allItems, log).

Definition generateGUID (item : RawPost) : string :=
  let str := Js.or_else (post_title item) ""
             +:+ Js.or_else (post_excerpt item) ""
             +:+ Js.or_else (post_first_published_at item) "" in
  md5hex str.

(** What the [forEach] callback of [generateRSS] computes for a post. *)
Definition rendered (nowUTC : string) (item : RawPost) : FeedItem :=
  {| title := escape_title (post_title item);
     link := article_url (post_url_path item);
     description := describe item;
     pubDate := pub_date nowUTC (post_first_published_at item);
     guid := generateGUID item |}.

Definition generateRSS (now : Z) (items : list RawPost) : string :=
  let nowUTC := Date.toUTCString now in
  fold_left
    (fun rss item =>
       let r := rendered nowUTC item in
       rss +:+ rss_item (title r) (link r) (description r) (pubDate r) (guid r))
    items (rss_header nowUTC)
  +:+ rss_footer.

(** [main]: everything the run does, in order. *)
Definition main (net : string → nat → attempt) (now : Z) : list event :=
  let '(items, log) := fetchAll net in
  log
  ++ (if (length items =? 0)%nat then [Console Warn ["No articles fetched"]] else [])
  ++ [WriteFile "feed.xml" (generateRSS now (take 500 items));
      Console Info ["RSS feed generated with " +:+ Js.decimal (Z.of_nat (length items))
                    +:+ " articles"]].

(** The items of the feed [main] writes. *)
Definition written_items (net : string → nat → attempt) (now : Z) : list FeedItem :=
  map (rendered (Date.toUTCString now)) (take 500 (fst (fetchAll net))).

End WithRuntime.

End Direct.

(** ** A runtime for the examples *)

Definition reference_parseString (s : string) : Xml2js.settled :=
  match Xml2js.parse s with
  | Some r => r
  | None => Xml2js.Rejected
  end.

Definition reference_parseString_model (s : string) (r : Xml2js.settled)
    (Hs : Xml2js.parse s = Some r) : reference_parseString s = r :=
  @eq_ind_r _ (Some r)
    (fun o => match o with Some r0 => r0 | None => Xml2js.Rejected end = r)
    eq_refl (Xml2js.parse s) Hs.

#[export] Instance node_runtime : Runtime := {|
  md5hex := Md5.hex;
  Date_parse := DateParse.parse;
  parseString := reference_parseString;
  parseString_model := reference_parseString_model
|}.

(** * What the theorems speak about *)

(** ** Order *)

(** The comparator of both scripts: [new Date(date b) - new Date(date a)]. *)
Definition by_date {A} (date : A → option Z) (a b : A) : option Z :=
  Date.minus (date b) (date a).

(** [a] may stand before [b]: both dates are valid and [a] is not older. *)
Definition not_older {A} (date : A → option Z) (a b : A) : Prop :=
  ∃ ta tb, date a = Some ta ∧ date b = Some tb ∧ tb ≤ ta.

Section Specifications.
Context `{Runtime}.

(** The publish date a reader of the feed sees for an item. *)
Definition date_of (i : FeedItem) : option Z := Date_parse (pubDate i).


(** ** The merge *)

(** What the loop over the endpoints keeps true, [existing] being the items
    of the previous feed: the two sets hold the guids and the links of all
    items so far, and no guid and no link occurs twice. *)
Record merged (existing : list FeedItem) (st : Playwright.state) : Prop := {
  merged_guids :
    ∀ i, i ∈ Playwright.newItems st ++ existing → guid i ∈ Playwright.existingGuids st;
  merged_links :
    ∀ i, i ∈ Playwright.newItems st ++ existing → link i ∈ Playwright.existingLinks st;
  merged_guid_nodup : NoDup (map guid (Playwright.newItems st ++ existing));
  merged_link_nodup : NoDup (map link (Playwright.newItems st ++ existing))
}.

(** The guids of the previous feed stay in the set, so no new item has one. *)
Record known (existing : list FeedItem) (st : Playwright.state) : Prop := {
  known_guids : ∀ i, i ∈ existing → guid i ∈ Playwright.existingGuids st;
  known_fresh : ∀ n, n ∈ Playwright.newItems st → guid n ∉ map guid existing
}.

End Specifications.

(** Two states of the merge that differ at most in what was logged. *)
Definition same_merge (s1 s2 : Playwright.state) : Prop :=
  Playwright.existingGuids s1 = Playwright.existingGuids s2
  ∧ Playwright.existingLinks s1 = Playwright.existingLinks s2
  ∧ Playwright.newItems s1 = Playwright.newItems s2
  ∧ Playwright.ticks s1 = Playwright.ticks s2.

(** The number of items of [l] with the guid [g]. *)
Definition occurrences (g : string) (l : list FeedItem) : nat :=
  length (filter (λ i, guid i = g) l).

(** The warning of the Playwright variant for an endpoint it skips. *)
Definition skipping (url : string) : list string :=
  ["⚠️ Skipping " +:+ url +:+ " due to error"].

(** ** Fetching *)

(** What an endpoint adds to [allItems] in the direct variant. *)
Definition posts_from (r : Direct.fetched) : list RawPost :=
  match r with
  | Direct.Returned (JsonObject data) => posts_of data
  | _ => []
  end.

(** The requests and waits of [fetchJsonSafe] when it stops at attempt [k]. *)
Definition attempts_trace (url : string) (k : nat) : list event :=
  match k with
  | 1%nat => [Request url (Some 10000)]
  | 2%nat => [Request url (Some 10000); Sleep 400; Request url (Some 10000)]
  | _ => [Request url (Some 10000); Sleep 400; Request url (Some 10000); Sleep 800;
          Request url (Some 10000)]
  end.

(** ** Reading a feed back *)

(** What [parseExistingFeed] reads for an item the feed holds, when the
    item's title, link, publish date and guid are character data, the guid as
    read is not blank and the description does not end its CDATA section
    early. *)
Definition read_back (i : FeedItem) : option FeedItem :=
  t ← Sax.chardata (title i);
  l ← Sax.chardata (link i);
  p ← Sax.chardata (pubDate i);
  g ← Sax.chardata (guid i);
  if Js.includes "]]>" (description i) || Xml2js.blank g then None
  else Some {| title := t; link := l;
               description := Js.remove_all "<![CDATA[" "]]>" (description i);
               pubDate := p; guid := g |}.

(** A well-formed feed without items: the parser resolves to an [rss] root
    with one channel, and the channel has no [item]. *)
Definition empty_feed (content : string) : Prop :=
  ∃ v ch, Xml2js.parse content = Some (Xml2js.Resolved (Some ("rss", v)))
          ∧ Xml2js.child v "channel" = Some (ch, [])
          ∧ Xml2js.child ch "item" = None.

(** The pieces of a feed, the events the scanner emits for them and the
    values the builder makes of them. *)
Module Feed.
Import Sax Xml2js.

(** A string without [<] and [&] is character data as it stands. *)
Definition plain (s : string) : bool :=
  forallb (λ c, negb (Ascii.eqb c "<") && negb (Ascii.eqb c "&")) (list_ascii_of_string s).

(** The scanner after a CDATA section with the content [d]. *)
Definition closed_cdata (d : string) : mode * list sax_event :=
  (TEXT "", if String.eqb d "" then [] else [CData d]).

Definition ws4 : string := Js.nl +:+ "    ".
Definition ws6 : string := Js.nl +:+ "      ".

Definition item_1 : string := "    <item>" +:+ Js.nl +:+ "      <title>".
Definition item_2 : string := "</title>" +:+ Js.nl +:+ "      <link>".
Definition item_3 : string := "</link>" +:+ Js.nl +:+ "      <description><![CDATA[".
Definition item_4 : string := "</description>" +:+ Js.nl +:+ "      <pubDate>".
Definition item_5 : string :=
  "</pubDate>" +:+ Js.nl +:+ "      <guid isPermaLink=" +:+ Js.dq +:+ "false" +:+ Js.dq +:+ ">".
Definition item_6 : string := "</guid>" +:+ Js.nl +:+ "    </item>" +:+ Js.nl.

(** The events of the header, [d] being the build date as read. *)
Definition header_events (d : string) : list sax_event :=
  [Text Js.nl;
   OpenTag "rss" [("version", "2.0"); ("xmlns:atom", "http://www.w3.org/2005/Atom")];
   Text (Js.nl +:+ "  "); OpenTag "channel" [];
   Text ws4; OpenTag "title" []; Text "Bonikbarta Combined Feed"; CloseTag "title";
   Text ws4; OpenTag "link" []; Text "https://harmonious-froyo-665879.netlify.app/";
   CloseTag "link";
   Text ws4;
   OpenTag "atom:link"
     [("href", "https://harmonious-froyo-665879.netlify.app/feed.xml"); ("rel", "self");
      ("type", "application/rss+xml")];
   CloseTag "atom:link";
   Text ws4; OpenTag "description" []; Text "Latest articles from Bonikbarta";
   CloseTag "description";
   Text ws4; OpenTag "language" []; Text "bn"; CloseTag "language";
   Text ws4; OpenTag "lastBuildDate" []]
  ++ closeText d
  ++ [CloseTag "lastBuildDate";
      Text ws4; OpenTag "generator" []; Text "GitHub Actions RSS Generator";
      CloseTag "generator"].

(** The events of an item, each field as read. *)
Definition item_events (t l d p g : string) : list sax_event :=
  [Text ws4; OpenTag "item" []; Text ws6; OpenTag "title" []]
  ++ closeText t
  ++ [CloseTag "title"; Text ws6; OpenTag "link" []]
  ++ closeText l
  ++ [CloseTag "link"; Text ws6; OpenTag "description" []]
  ++ (if String.eqb d "" then [] else [CData d])
  ++ [CloseTag "description"; Text ws6; OpenTag "pubDate" []]
  ++ closeText p
  ++ [CloseTag "pubDate"; Text ws6; OpenTag "guid" [("isPermaLink", "false")]]
  ++ closeText g
  ++ [CloseTag "guid"; Text ws4; CloseTag "item"].

Definition footer_events : list sax_event :=
  [Text (Js.nl +:+ "  "); CloseTag "channel"; Text Js.nl; CloseTag "rss"].

(** The value of an item element. *)
Definition item_value (t l d p g : string) : xvalue :=
  XObj None []
    [("title", (XStr t, [])); ("link", (XStr l, [])); ("description", (XStr d, []));
     ("pubDate", (XStr p, []));
     ("guid", (XObj (Some g) [("isPermaLink", "false")] [], []))].

(** The items of a feed, as [generateRSS] appends them. *)
Definition items_text (items : list FeedItem) : string :=
  fold_right
    (λ i r, rss_item (title i) (link i) (description i) (pubDate i) (guid i) +:+ r)
    "" items.

(** The element [xml2js] builds for an item, from the item as read back. *)
Definition value_for (raw i' : FeedItem) : xvalue :=
  item_value (title i') (link i') (description raw) (pubDate i') (guid i').

(** The channel after one more item. *)
Definition push_item (ch : frame) (v : xvalue) : frame :=
  add_child (add_text ch ws4 false) "item" v.

Definition rss_frame : frame :=
  add_text
    (open "rss" [("version", "2.0"); ("xmlns:atom", "http://www.w3.org/2005/Atom")])
    (Js.nl +:+ "  ") false.

(** The channel when the header is read, [d] being the build date. *)
Definition channel_frame (d : string) : frame :=
  {| f_name := "channel"; f_attrs := [];
     f_text := ws4 +:+ ws4 +:+ ws4 +:+ ws4 +:+ ws4 +:+ ws4 +:+ ws4;
     f_cdata := false;
     f_children :=
       [("title", (XStr "Bonikbarta Combined Feed", []));
        ("link", (XStr "https://harmonious-froyo-665879.netlify.app/", []));
        ("atom:link",
         (XObj None
            [("href", "https://harmonious-froyo-665879.netlify.app/feed.xml");
             ("rel", "self"); ("type", "application/rss+xml")] [], []));
        ("description", (XStr "Latest articles from Bonikbarta", []));
        ("language", (XStr "bn", []));
        ("lastBuildDate", (XStr d, []));
        ("generator", (XStr "GitHub Actions RSS Generator", []))] |}.

(** The array under a child name. *)
Definition array (cs : list (string * (xvalue * list xvalue))) (n : string) : list xvalue :=
  match find (λ kv, String.eqb kv.1 n) cs with
  | Some (_, (v, vs)) => v :: vs
  | None => []
  end.

(** The root the builder makes of a feed with the channel [ch]. *)
Definition root_of (ch : frame) : xvalue :=
  value_of
    (add_text
       (add_child rss_frame "channel" (value_of (add_text ch (Js.nl +:+ "  ") false)))
       Js.nl false).

End Feed.

(** ** Examples *)

Module Examples.

Definition post (t e path fpa : option string) : RawPost :=
  {| post_title := t; post_excerpt := e; post_summary := None;
     post_url_path := path; post_first_published_at := fpa |}.

Definition budget : RawPost :=
  post (Some "Budget 2020") (Some "The budget") (Some "/home/economy/budget")
    (Some "2020-01-01T00:00:00Z").

(** The same article under another path. *)
Definition moved : RawPost :=
  post (Some "Budget 2020") (Some "The budget") (Some "/home/moved")
    (Some "2020-01-01T00:00:00Z").


Definition search : RawPost :=
  post (Some "Search") (Some "A link with a query") (Some "/search?q=rice&page=2")
    (Some "2021-06-01T12:00:00Z").

Definition url41 : string :=
  "https://bonikbarta.com/api/post-filters/41?root_path=00000000010000000001".

Definition url52 : string :=
  "https://bonikbarta.com/api/post-filters/52?root_path=00000000010000000001".

Definition answer (posts : list RawPost) : parsed_json :=
  JsonValue (JsonObject {| api_posts := Some posts; api_content_items := None |}).

(** The body of an answer is only looked at for how it starts. *)
Definition body : string := "{ ... }".

(** 2027-01-02T11:40:00.123Z, and a clock that advances a second a reading. *)
Definition noon : Z := 1798890000123.
Definition clock (n : nat) : Z := noon + 1000 * Z.of_nat n.

(** Both endpoints list the same post. *)
Definition net_same (url : string) (i : nat) : Direct.attempt :=
  Direct.Responds 200 "application/json" body (answer [budget]).


(** Every endpoint is down. *)
Definition net_down (url : string) (i : nat) : Direct.attempt :=
  Direct.FetchRejects "request failed, reason: read ECONNRESET".

Definition page_budget (url : string) : Playwright.page_result :=
  if String.eqb url url41 then Playwright.EvaluateResolves body (answer [budget; budget])
  else Playwright.EvaluateRejects.

Definition page_search (url : string) : Playwright.page_result :=
  if String.eqb url url41 then Playwright.EvaluateResolves body (answer [search])
  else Playwright.EvaluateRejects.

(** One endpoint lists the budget again, the other answers without posts. *)
Definition page_empty (url : string) : Playwright.page_result :=
  if String.eqb url url52 then Playwright.EvaluateResolves body (answer [])
  else Playwright.EvaluateResolves body (answer [moved]).

Definition page_down (url : string) : Playwright.page_result :=
  Playwright.EvaluateRejects.

(** The feed of a first run, which finds the budget post. *)
Definition first_feed : string :=
  Eval vm_compute in
    Playwright.generateRSS noon (Playwright.finalItems Playwright.NoFile page_budget clock).

(** The item of that feed. *)
Definition budget_item : FeedItem := Playwright.itemToRSSItem noon budget.

(** The feed the direct variant writes when both endpoints list the budget
    post. *)
Definition doubled_feed : string :=
  Eval vm_compute in Playwright.generateRSS noon (Direct.written_items net_same noon).

End Examples.

(** ** What a run adds *)

Section Additions.
Context `{Runtime}.

(** What the loop over the endpoints keeps true of the items it adds,
    whatever the previous feed [existing] holds: the two sets hold exactly the
    guids and the links of all items so far, the added items differ from one
    another and from the previous ones in guid and in link, and each is the
    item of some post. *)
Record additions (existing : list FeedItem) (st : Playwright.state) : Prop := {
  additions_guids :
    ∀ g, g ∈ Playwright.existingGuids st
         ↔ g ∈ map guid (Playwright.newItems st ++ existing);
  additions_links :
    ∀ l, l ∈ Playwright.existingLinks st
         ↔ l ∈ map link (Playwright.newItems st ++ existing);
  additions_guid_nodup : NoDup (map guid (Playwright.newItems st));
  additions_link_nodup : NoDup (map link (Playwright.newItems st));
  additions_fresh :
    Forall (λ n, (guid n ∉ map guid existing) ∧ (link n ∉ map link existing))
      (Playwright.newItems st)
}.

(** A post the merge has an item for: one with its guid, or one with its
    link. *)
Definition represented (l : list FeedItem) (post : RawPost) : Prop :=
  ∃ i, i ∈ l ∧ (guid i = Playwright.generateGUID post
                ∨ link i = article_url (post_url_path post)).

(** The merge has met the guid or the link of the post. *)
Definition seen (st : Playwright.state) (post : RawPost) : Prop :=
  Playwright.generateGUID post ∈ Playwright.existingGuids st
  ∨ article_url (post_url_path post) ∈ Playwright.existingLinks st.

(** The set of guids and the set of links only grow. *)
Definition grows (s1 s2 : Playwright.state) : Prop :=
  Playwright.existingGuids s1 ⊆ Playwright.existingGuids s2
  ∧ Playwright.existingLinks s1 ⊆ Playwright.existingLinks s2.

(** An item made of a post that an endpoint of [urls] returned. *)
Definition fetched_item (page : string → Playwright.page_result) (clock : nat → Z)
    (urls : list string) (i : FeedItem) : Prop :=
  ∃ url posts post k,
    url ∈ urls ∧ (Playwright.fetchJSONWithPlaywright url (page url)).1 = Some posts
    ∧ post ∈ posts ∧ i = Playwright.itemToRSSItem (clock k) post.

End Additions.

(** ** What is cut off *)

Section Cut.
Context `{Runtime}.

(** The merged list of the Playwright variant, sorted, before it is cut. *)
Definition sortedItems (file : Playwright.feed_file)
    (page : string → Playwright.page_result) (clock : nat → Z) : list FeedItem :=
  Js.sort Playwright.newest_first
    (Playwright.newItems (Playwright.collected file page clock)
     ++ (Playwright.parseExistingFeed file).1).

(** The items dated [t], in the order of the list. *)
Definition dated (t : Z) (l : list FeedItem) : list FeedItem :=
  filter (λ i, date_of i = Some t) l.

(** The endpoints whose answer holds posts. *)
Definition answering (page : string → Playwright.page_result) (urls : list string)
  : list string :=
  filter (λ u, is_Some (Playwright.fetchJSONWithPlaywright u (page u)).1) urls.

End Cut.

(** ** The direct variant and the status of an answer *)

(** Two outcomes of a call of [fetch] that differ at most in the HTTP
    status. *)
Definition same_answer (a b : Direct.attempt) : Prop :=
  match a, b with
  | Direct.FetchRejects m, Direct.FetchRejects m' => m = m'
  | Direct.Responds _ ct text json, Direct.Responds _ ct' text' json' =>
      ct = ct' ∧ text = text' ∧ json = json'
  | _, _ => False
  end.

(** Two results of [fetchJsonSafe] that are the same data, or both an error. *)
Definition same_outcome (r r' : Direct.fetched) : Prop :=
  match r, r' with
  | Direct.Returned v, Direct.Returned v' => v = v'
  | Direct.Thrown _, Direct.Thrown _ => True
  | _, _ => False
  end.

(** The sum of the waits. *)
Definition total (waits : list Z) : Z := fold_right Z.add 0 waits.

(** ** What is read back for the item of a post *)

(** The item of a post as the next run reads it from the feed: the title
    without the escapes, the description without the marks of a CDATA
    section. *)
Definition as_read `{Runtime} (now : Z) (post : RawPost) : FeedItem :=
  {| title := Js.or_else (post_title post) "No title";
     link := article_url (post_url_path post);
     description := Js.remove_all "<![CDATA[" "]]>" (describe post);
     pubDate := pub_date (Date.toUTCString now) (post_first_published_at post);
     guid := Playwright.generateGUID post |}.

(** A post whose item can be read back: its link and its guid are character
    data as they stand, the guid is not blank, and the description does not
    end its CDATA section. *)
Definition readable `{Runtime} (post : RawPost) : Prop :=
  Feed.plain (article_url (post_url_path post)) = true
  ∧ Feed.plain (Playwright.generateGUID post) = true
  ∧ Xml2js.blank (Playwright.generateGUID post) = false
  ∧ Js.includes "]]>" (describe post) = false.

(** ** More examples *)

Module Cases.
Import Examples.

(** The budget article after an edit: another title at the same path. *)
Definition edited : RawPost :=
  post (Some "Budget 2020, revised") (Some "The budget") (Some "/home/economy/budget")
    (Some "2020-01-01T00:00:00Z").

(** A title with characters that are escaped. *)
Definition markets : RawPost :=
  post (Some "Rice & wheat: <prices>") (Some "Markets") (Some "/home/markets/rice")
    (Some "2021-06-01T12:00:00Z").

Definition page_edited (url : string) : Playwright.page_result :=
  if String.eqb url url41 then Playwright.EvaluateResolves body (answer [edited])
  else Playwright.EvaluateRejects.

(** Both endpoints list the budget post, with status 503. *)
Definition net_same_503 (url : string) (i : nat) : Direct.attempt :=
  Direct.Responds 503 "application/json" body (answer [budget]).

(** The budget article with its text as summary, without excerpt. *)
Definition summary_only : RawPost :=
  {| post_title := Some "Budget 2020"; post_excerpt := None;
     post_summary := Some "The budget"; post_url_path := Some "/home/economy/budget";
     post_first_published_at := Some "2020-01-01T00:00:00Z" |}.

(** The same article with another summary. *)
Definition other_summary : RawPost :=
  {| post_title := Some "Budget 2020"; post_excerpt := None;
     post_summary := Some "Something else"; post_url_path := Some "/home/economy/budget";
     post_first_published_at := Some "2020-01-01T00:00:00Z" |}.

(** Two more articles of the day of the budget article. *)
Definition speech : RawPost :=
  post (Some "Budget speech") (Some "The speech") (Some "/home/economy/speech")
    (Some "2020-01-01T00:00:00Z").

Definition reactions : RawPost :=
  post (Some "Reactions") (Some "What was said") (Some "/home/economy/reactions")
    (Some "2020-01-01T00:00:00Z").

Definition page_day (url : string) : Playwright.page_result :=
  if String.eqb url url41 then Playwright.EvaluateResolves body (answer [speech; reactions])
  else Playwright.EvaluateRejects.

(** An article of 2021. *)
Definition harvest : RawPost :=
  post (Some "Harvest") (Some "The harvest") (Some "/home/economy/harvest")
    (Some "2021-06-01T12:00:00Z").

Definition harvest_item : FeedItem := Playwright.itemToRSSItem noon harvest.

(** A previous feed of 501 items: the budget article of 2020 first, then
    500 times the article of 2021. *)
Definition crowd : list FeedItem := budget_item :: replicate 500 harvest_item.

Definition crowded : Playwright.feed_file :=
  Playwright.FileContent (Playwright.generateRSS noon crowd).

(** One endpoint lists the two articles, 501 posts in that order, the
    other is down. *)
Definition net_crowd (url : string) (i : nat) : Direct.attempt :=
  if String.eqb url url41
  then Direct.Responds 200 "application/json" body
         (answer (budget :: replicate 500 harvest))
  else Direct.FetchRejects "request failed, reason: read ECONNRESET".

End Cases.

(** * Properties *)

(** ** [Array.prototype.sort] *)

Section Sort.
Context {A : Type} (cmp : A → A → option Z).

Lemma insert_perm (x : A) (l : list A) : Js.insert cmp x l ≡ₚ x :: l.
Proof.
  induction l as [|y l IH]; simpl; [done|].
  destruct (0 <? Js.order (cmp x y)); [|done].
  rewrite IH. apply Permutation_swap.
Qed.

Lemma sort_perm (l : list A) : Js.sort cmp l ≡ₚ l.
Proof.
  induction l as [|x l IH]; simpl; [done|].
  rewrite insert_perm. by rewrite IH.
Qed.

Lemma sort_length (l : list A) : length (Js.sort cmp l) = length l.
Proof. by rewrite sort_perm. Qed.

End Sort.

Section SortByDate.
Context {A : Type} (date : A → option Z).

Lemma insert_sorted (x : A) (l : list A) :
  is_Some (date x) → Forall (λ y, is_Some (date y)) l →
  StronglySorted (not_older date) l → StronglySorted (not_older date) (Js.insert (by_date date) x l).
Proof.
  intros [tx Hx] Hl Hs. induction Hs as [|y l Hs IH Hy]; simpl.
  - repeat constructor.
  - apply Forall_cons in Hl as [[ty Hty] Hl].
    unfold by_date at 1, Date.minus. rewrite Hx, Hty. simpl.
    destruct (Z.ltb_spec 0 (ty - tx)) as [Hlt|Hge].
    + constructor; [by apply IH|].
      rewrite insert_perm. constructor; [|done].
      exists ty, tx. repeat split; [done..|lia].
    + constructor; [by constructor|].
      constructor; [exists tx, ty; repeat split; [done..|lia]|].
      eapply Forall_impl; [exact Hy|].
      intros z (ty' & tz & Hy' & Hz & Hle). exists tx, tz.
      repeat split; [done..|]. rewrite Hty in Hy'. injection Hy' as <-. lia.
Qed.

Lemma sort_sorted (l : list A) :
  Forall (λ y, is_Some (date y)) l → StronglySorted (not_older date) (Js.sort (by_date date) l).
Proof.
  induction 1 as [|x l Hx Hl IH]; simpl; [constructor|].
  apply insert_sorted; [done| |done].
  by rewrite sort_perm.
Qed.

End SortByDate.

(** ** The merge of [generate-rss.js] *)

Section Merge.
Context `{Runtime}.
Import Playwright.

Lemma merged_log existing st es : merged existing st → merged existing (log st es).
Proof. intros []. by split. Qed.

Lemma nodup_snoc_app {A B} (f : A → B) (l1 l2 : list A) (x : A) :
  NoDup (map f (l1 ++ l2)) → (∀ y, y ∈ l1 ++ l2 → f y ≠ f x) →
  NoDup (map f ((l1 ++ [x]) ++ l2)).
Proof.
  intros Hnd Hx.
  assert ((l1 ++ [x]) ++ l2 ≡ₚ x :: (l1 ++ l2)) as ->.
  { rewrite <- app_assoc. simpl. by rewrite <- Permutation_middle. }
  simpl. constructor; [|done].
  intros (y & Hy & Hin)%list_elem_of_fmap. by apply (Hx y).
Qed.

Lemma merged_visit_post clock existing st post :
  merged existing st → merged existing (visit_post clock st post).
Proof.
  intros [Hg Hl Hng Hnl]. unfold visit_post.
  set (x := itemToRSSItem (clock (ticks st)) post).
  destruct (bool_decide (guid x ∈ existingGuids st)) eqn:Eg; cbn [negb andb];
    [by split; cbn|].
  destruct (bool_decide (link x ∈ existingLinks st)) eqn:El; cbn [negb andb];
    [by split; cbn|].
  apply bool_decide_eq_false in Eg, El.
  split; cbn [existingGuids existingLinks newItems].
  - intros i. rewrite <- app_assoc. simpl.
    rewrite elem_of_app, elem_of_cons, elem_of_union, elem_of_singleton.
    intros [Hi|[->|Hi]]; [right; apply Hg; set_solver|by left|right; apply Hg; set_solver].
  - intros i. rewrite <- app_assoc. simpl.
    rewrite elem_of_app, elem_of_cons, elem_of_union, elem_of_singleton.
    intros [Hi|[->|Hi]]; [right; apply Hl; set_solver|by left|right; apply Hl; set_solver].
  - apply nodup_snoc_app; [done|]. intros y Hy Heq. apply Eg. rewrite <- Heq. by apply Hg.
  - apply nodup_snoc_app; [done|]. intros y Hy Heq. apply El. rewrite <- Heq. by apply Hl.
Qed.

Lemma merged_visit_posts clock existing posts st :
  merged existing st → merged existing (fold_left (visit_post clock) posts st).
Proof.
  revert st. induction posts as [|p posts IH]; intros st Hst; simpl; [done|].
  by apply IH, merged_visit_post.
Qed.

Lemma merged_visit_url page clock existing st url :
  merged existing st → merged existing (visit_url page clock st url).
Proof.
  intros Hst. unfold visit_url.
  destruct (fetchJSONWithPlaywright url (page url)) as [[items|] es].
  - by apply merged_log, merged_visit_posts, merged_log.
  - by do 2 apply merged_log.
Qed.

Lemma merged_visit_urls page clock existing urls st :
  merged existing st → merged existing (fold_left (visit_url page clock) urls st).
Proof.
  revert st. induction urls as [|u urls IH]; intros st Hst; simpl; [done|].
  by apply IH, merged_visit_url.
Qed.

Lemma merged_collected file page clock :
  NoDup (map guid (parseExistingFeed file).1) →
  NoDup (map link (parseExistingFeed file).1) →
  merged (parseExistingFeed file).1 (collected file page clock).
Proof.
  intros Hg Hl. unfold collected.
  destruct (parseExistingFeed file) as [existing es]. cbn [fst] in *.
  apply merged_visit_urls. split; cbn [existingGuids existingLinks newItems app]; [| |done..].
  - intros i Hi. apply elem_of_list_to_set, list_elem_of_fmap. eauto.
  - intros i Hi. apply elem_of_list_to_set, list_elem_of_fmap. eauto.
Qed.

Lemma nodup_take_sort {B} (f : FeedItem → B) cmp n (l : list FeedItem) :
  NoDup (map f l) → NoDup (map f (take n (Js.sort cmp l))).
Proof.
  intros Hnd. rewrite <- (sort_perm cmp l) in Hnd.
  rewrite <- (take_drop n (Js.sort cmp l)), map_app in Hnd.
  by apply NoDup_app in Hnd as [? _].
Qed.

Theorem dedup_playwright file page clock :
  NoDup (map guid (parseExistingFeed file).1) →
  NoDup (map link (parseExistingFeed file).1) →
  NoDup (map guid (finalItems file page clock))
  ∧ NoDup (map link (finalItems file page clock)).
Proof.
  intros Hg Hl. destruct (merged_collected file page clock Hg Hl) as [_ _ Hng Hnl].
  unfold finalItems. split; by apply nodup_take_sort.
Qed.

End Merge.

(** ** What the runs write *)

Lemma written_app (l1 l2 : list event) : written (l1 ++ l2) = written l1 ++ written l2.
Proof. apply omap_app. Qed.

Section Writes.
Context `{Runtime}.

Lemma parseExistingFeed_writes file : written (Playwright.parseExistingFeed file).2 = [].
Proof.
  unfold Playwright.parseExistingFeed.
  repeat case_match; reflexivity.
Qed.

Lemma fetchJSONWithPlaywright_writes url r :
  written (Playwright.fetchJSONWithPlaywright url r).2 = [].
Proof.
  unfold Playwright.fetchJSONWithPlaywright.
  repeat case_match; reflexivity.
Qed.

Lemma visit_posts_trace clock posts st :
  Playwright.trace (fold_left (Playwright.visit_post clock) posts st) = Playwright.trace st.
Proof.
  revert st. induction posts as [|p posts IH]; intros st; simpl; [done|].
  rewrite IH. unfold Playwright.visit_post. by case_match.
Qed.

Lemma visit_url_writes page clock st url :
  written (Playwright.trace st) = [] →
  written (Playwright.trace (Playwright.visit_url page clock st url)) = [].
Proof.
  intros Hst. unfold Playwright.visit_url.
  pose proof (fetchJSONWithPlaywright_writes url (page url)) as Hf.
  destruct (Playwright.fetchJSONWithPlaywright url (page url)) as [[items|] es];
    cbn [snd] in Hf; cbn [Playwright.log Playwright.trace].
  - rewrite visit_posts_trace. cbn. by rewrite !written_app, Hst, Hf.
  - by rewrite !written_app, Hst, Hf.
Qed.

Lemma collected_writes file page clock :
  written (Playwright.trace (Playwright.collected file page clock)) = [].
Proof.
  unfold Playwright.collected.
  pose proof (parseExistingFeed_writes file) as Hp.
  destruct (Playwright.parseExistingFeed file) as [existing es]. cbn [snd] in Hp.
  match goal with |- context [fold_left _ _ ?s] =>
    assert (written (Playwright.trace s) = []) as Hs by exact Hp; revert Hs; generalize s end.
  generalize apiURLs. intros urls. induction urls as [|u urls IH]; intros st Hst; simpl; [done|].
  by apply IH, visit_url_writes.
Qed.

(** [main] writes one file: [feed.xml], with the rendering of [finalItems]. *)
Lemma playwright_main_writes file page clock :
  written (Playwright.main file page clock)
  = [(Playwright.feedFile,
      Playwright.generateRSS
        (clock (Playwright.ticks (Playwright.collected file page clock)))
        (Playwright.finalItems file page clock))].
Proof.
  unfold Playwright.main. rewrite written_app, collected_writes. reflexivity.
Qed.

Lemma attempts_writes url net fuel i last :
  written (Direct.attempts url net fuel i last).2 = [].
Proof.
  revert i last. induction fuel as [|fuel IH]; intros i last; simpl; [done|].
  destruct (Direct.attempt_result (net i)) as [v|err]; [done|].
  case_match; [done|].
  specialize (IH (S i) (Some err)).
  destruct (Direct.attempts url net fuel (S i) (Some err)) as [r es]. exact IH.
Qed.

Lemma load_writes net acc url :
  written acc.2 = [] → written (Direct.load net acc url).2 = [].
Proof.
  destruct acc as [allItems log]. cbn [snd]. intros Hlog. unfold Direct.load.
  pose proof (attempts_writes url (net url) Direct.maxRetries 1 None) as Hf.
  unfold Direct.fetchJsonSafe.
  destruct (Direct.attempts url (net url) Direct.maxRetries 1 None) as [r es].
  cbn [snd] in Hf.
  destruct r as [[| |data]|[err|]]; cbn [snd]; rewrite ?written_app, ?Hlog, ?Hf; try done.
  by destruct (Direct.snippet err).
Qed.

Lemma fetchAll_writes net : written (Direct.fetchAll net).2 = [].
Proof.
  unfold Direct.fetchAll.
  assert (∀ urls acc, written acc.2 = [] →
            written (fold_left (Direct.load net) urls acc).2 = []) as Hfold.
  { induction urls as [|u urls IH]; intros acc Hacc; simpl; [done|].
    by apply IH, load_writes. }
  specialize (Hfold apiURLs ([], []) eq_refl).
  by destruct (fold_left (Direct.load net) apiURLs ([], [])).
Qed.

(** [main] of the direct variant writes one file: [feed.xml], with the
    rendering of the first 500 posts. *)
Lemma direct_main_writes net now :
  written (Direct.main net now)
  = [("feed.xml", Direct.generateRSS now (take 500 (Direct.fetchAll net).1))].
Proof.
  unfold Direct.main. pose proof (fetchAll_writes net) as Hf.
  destruct (Direct.fetchAll net) as [items log]. cbn [fst snd] in *.
  rewrite !written_app, Hf. by case_match.
Qed.

(** The direct variant renders posts; its feed is the Playwright rendering
    of the items it computes for them. *)
Lemma direct_generateRSS now posts :
  Direct.generateRSS now posts
  = Playwright.generateRSS now (map (Direct.rendered (Date.toUTCString now)) posts).
Proof.
  unfold Direct.generateRSS, Playwright.generateRSS. f_equal.
  generalize (rss_header (Date.toUTCString now)).
  induction posts as [|p posts IH]; intros acc; simpl; [done|]. apply IH.
Qed.

End Writes.

(** ** C1: no guid and no link twice *)

(** C1, as stated, fails: the direct variant does not deduplicate.  When both
    endpoints list the same post, the feed it writes holds the post twice,
    with one guid and one link. *)
Lemma C1_direct_writes_duplicates :
  written (Direct.main Examples.net_same Examples.noon)
  = [("feed.xml", Examples.doubled_feed)]
  ∧ Examples.doubled_feed
    = Playwright.generateRSS Examples.noon
        (Direct.written_items Examples.net_same Examples.noon)
  ∧ ¬ NoDup (map guid (Direct.written_items Examples.net_same Examples.noon))
  ∧ ¬ NoDup (map link (Direct.written_items Examples.net_same Examples.noon)).
Proof.
  split; [|split; [|split]].
  - vm_compute. reflexivity.
  - vm_compute. reflexivity.
  - assert (map guid (Direct.written_items Examples.net_same Examples.noon)
            = ["6145252728b8568cbc8b14e2bfc45030"; "6145252728b8568cbc8b14e2bfc45030"]) as ->.
    { vm_compute. reflexivity. }
    intros Hnd. apply NoDup_cons in Hnd as [Hin _]. apply Hin. left.
  - assert (map link (Direct.written_items Examples.net_same Examples.noon)
            = ["https://bonikbarta.com/economy/budget";
               "https://bonikbarta.com/economy/budget"]) as ->.
    { vm_compute. reflexivity. }
    intros Hnd. apply NoDup_cons in Hnd as [Hin _]. apply Hin. left.
Qed.

Section Claims.
Context `{Runtime}.

(** C1, amended: in the Playwright variant, when no two items of the
    previous feed share a guid or a link, no two items of the feed that is
    written do. *)
Theorem C1_playwright_no_duplicates file page clock :
  NoDup (map guid (Playwright.parseExistingFeed file).1) →
  NoDup (map link (Playwright.parseExistingFeed file).1) →
  NoDup (map guid (Playwright.finalItems file page clock))
  ∧ NoDup (map link (Playwright.finalItems file page clock)).
Proof. apply dedup_playwright. Qed.

(** C5: neither variant writes more than 500 items. *)
Theorem C5_at_most_500_items file page clock net now :
  (written (Playwright.main file page clock)
   = [("feed.xml",
       Playwright.generateRSS
         (clock (Playwright.ticks (Playwright.collected file page clock)))
         (Playwright.finalItems file page clock))]
   ∧ (length (Playwright.finalItems file page clock) ≤ 500)%nat)
  ∧ (written (Direct.main net now)
     = [("feed.xml",
         Playwright.generateRSS now (Direct.written_items net now))]
     ∧ (length (Direct.written_items net now) ≤ 500)%nat).
Proof.
  split; split.
  - apply playwright_main_writes.
  - unfold Playwright.finalItems, Playwright.maxItems. rewrite length_take. lia.
  - rewrite direct_main_writes, direct_generateRSS. reflexivity.
  - unfold Direct.written_items. rewrite length_map, length_take. lia.
Qed.

(** In both variants the guid is the MD5 digest of a concatenation of the
    post's title, excerpt (in the Playwright variant: the summary when there
    is no excerpt) and first_published_at, absent ones counting as empty; so
    posts that agree on title, excerpt, summary and first_published_at get
    the same guid. *)
Lemma guid_formulas (p q : RawPost) :
  post_title p = post_title q →
  post_excerpt p = post_excerpt q →
  post_summary p = post_summary q →
  post_first_published_at p = post_first_published_at q →
  Playwright.generateGUID p = Playwright.generateGUID q
  ∧ Direct.generateGUID p = Direct.generateGUID q
  ∧ Playwright.generateGUID p
    = md5hex (Js.or_else (post_title p) ""
              +:+ Js.or_else (post_excerpt p) (Js.or_else (post_summary p) "")
              +:+ Js.or_else (post_first_published_at p) "")
  ∧ Direct.generateGUID p
    = md5hex (Js.or_else (post_title p) "" +:+ Js.or_else (post_excerpt p) ""
              +:+ Js.or_else (post_first_published_at p) "").
Proof.
  intros Ht He Hs Hf. unfold Playwright.generateGUID, Direct.generateGUID.
  rewrite Ht, He, Hs, Hf. repeat split.
Qed.

End Claims.

Lemma C1_witness :
  NoDup (map guid (Playwright.finalItems (Playwright.FileContent Examples.first_feed)
                     Examples.page_search Examples.clock))
  ∧ NoDup (map link (Playwright.finalItems (Playwright.FileContent Examples.first_feed)
                       Examples.page_search Examples.clock)).
Proof.
  apply (C1_playwright_no_duplicates (Playwright.FileContent Examples.first_feed)
           Examples.page_search Examples.clock).
  - vm_compute. repeat constructor. set_solver.
  - vm_compute. repeat constructor. set_solver.
Defined.

(** C3: the direct variant leaves the summary out of the hash.  The
    Playwright variant gives a post whose text is its summary the guid of the
    post whose text is its excerpt; the direct variant hashes title and date
    alone, so the two get different guids there, and posts that differ in the
    summary only get one guid. *)
Lemma C3_direct_guid_ignores_summary :
  Playwright.generateGUID Cases.summary_only = Playwright.generateGUID Examples.budget
  ∧ Direct.generateGUID Cases.summary_only ≠ Direct.generateGUID Examples.budget
  ∧ Direct.generateGUID Cases.summary_only
    = md5hex ("Budget 2020" +:+ "2020-01-01T00:00:00Z")
  ∧ Direct.generateGUID Cases.summary_only = Direct.generateGUID Cases.other_summary
  ∧ description (Direct.rendered (Date.toUTCString Examples.noon) Cases.summary_only)
    = "The budget".
Proof.
  split; [vm_compute; reflexivity|].
  split; [|split; [vm_compute; reflexivity|split; vm_compute; reflexivity]].
  assert (Direct.generateGUID Cases.summary_only = "c4ddf7628bdc13b190b81d0238edb1ec") as ->.
  { vm_compute. reflexivity. }
  assert (Direct.generateGUID Examples.budget = "6145252728b8568cbc8b14e2bfc45030") as ->.
  { vm_compute. reflexivity. }
  discriminate.
Qed.

(** ** C7: a post that is already in the feed is not added again *)

Section Known.
Context `{Runtime}.
Import Playwright.

Lemma known_log existing st es : known existing st → known existing (log st es).
Proof. intros []. by split. Qed.

Lemma known_visit_post clock existing st post :
  known existing st → known existing (visit_post clock st post).
Proof.
  intros [Hg Hf]. unfold visit_post.
  set (x := itemToRSSItem (clock (ticks st)) post).
  destruct (bool_decide (guid x ∈ existingGuids st)) eqn:Eg; cbn [negb andb];
    [by split; cbn|].
  destruct (bool_decide (link x ∈ existingLinks st)) eqn:El; cbn [negb andb];
    [by split; cbn|].
  apply bool_decide_eq_false in Eg.
  split; cbn [existingGuids newItems].
  - intros i Hi. apply elem_of_union_r. by apply Hg.
  - intros n [Hn| ->%list_elem_of_singleton]%elem_of_app; [by apply Hf|].
    intros (i & Hi & Hin)%list_elem_of_fmap. apply Eg. rewrite Hi. by apply Hg.
Qed.

Lemma known_visit_url page clock existing st url :
  known existing st → known existing (visit_url page clock st url).
Proof.
  intros Hst. unfold visit_url.
  destruct (fetchJSONWithPlaywright url (page url)) as [[items|] es].
  - apply known_log. generalize (log st es) (known_log _ _ es Hst).
    induction items as [|p items IH]; intros st' Hst'; simpl; [done|].
    by apply IH, known_visit_post.
  - by do 2 apply known_log.
Qed.

Lemma known_collected file page clock :
  known (parseExistingFeed file).1 (collected file page clock).
Proof.
  unfold collected. destruct (parseExistingFeed file) as [existing es]. cbn [fst].
  match goal with |- known _ (fold_left _ _ ?s) =>
    assert (known existing s) as Hs; [|revert Hs; generalize s] end.
  { split; cbn [existingGuids newItems].
    - intros i Hi. apply elem_of_list_to_set, list_elem_of_fmap. eauto.
    - intros n Hn. by apply not_elem_of_nil in Hn. }
  generalize apiURLs. intros urls. induction urls as [|u urls IH]; intros st Hst; simpl; [done|].
  by apply IH, known_visit_url.
Qed.

End Known.

Lemma occurrences_none g l : (∀ n, n ∈ l → guid n ≠ g) → occurrences g l = 0%nat.
Proof.
  intros Hl. unfold occurrences.
  destruct (filter (λ i, guid i = g) l) as [|x l'] eqn:E; [done|].
  assert (x ∈ filter (λ i, guid i = g) l) as [Hx Hin]%list_elem_of_filter
    by (rewrite E; left).
  by destruct (Hl x Hin).
Qed.

Lemma occurrences_app g l1 l2 :
  occurrences g (l1 ++ l2) = (occurrences g l1 + occurrences g l2)%nat.
Proof. unfold occurrences. by rewrite filter_app, length_app. Qed.

Lemma occurrences_perm g l1 l2 : l1 ≡ₚ l2 → occurrences g l1 = occurrences g l2.
Proof. intros Hp. unfold occurrences. by rewrite Hp. Qed.

Lemma occurrences_take g n l : (occurrences g (take n l) ≤ occurrences g l)%nat.
Proof. rewrite <- (take_drop n l) at 2. rewrite occurrences_app. lia. Qed.

Section ClaimC7.
Context `{Runtime}.
Import Playwright.

(** C7, amended: when the previous feed holds an item X once, with the guid
    of a post [p0], and a post [p] with the title, excerpt, summary and
    first_published_at of [p0] is fetched, then [p] gets X's guid, no item of
    [p] is added, the merged list holds that guid once, and the feed that is
    written at most once. *)
Theorem C7_unchanged_post_is_deduplicated file page clock (X : FeedItem) (p0 p : RawPost) :
  X ∈ (parseExistingFeed file).1 →
  occurrences (guid X) (parseExistingFeed file).1 = 1%nat →
  guid X = generateGUID p0 →
  post_title p = post_title p0 →
  post_excerpt p = post_excerpt p0 →
  post_summary p = post_summary p0 →
  post_first_published_at p = post_first_published_at p0 →
  generateGUID p = guid X
  ∧ (∀ now, itemToRSSItem now p ∉ newItems (collected file page clock))
  ∧ occurrences (guid X)
      (newItems (collected file page clock) ++ (parseExistingFeed file).1) = 1%nat
  ∧ (occurrences (guid X) (finalItems file page clock) ≤ 1)%nat.
Proof.
  intros HX Hone HgX Ht He Hs Hf.
  destruct (known_collected file page clock) as [_ Hfresh].
  assert (generateGUID p = guid X) as Hp.
  { rewrite HgX. unfold generateGUID. by rewrite Ht, He, Hs, Hf. }
  assert (occurrences (guid X) (newItems (collected file page clock)) = 0%nat) as Hnew.
  { apply occurrences_none. intros n Hn Hg. apply (Hfresh n Hn). rewrite Hg.
    apply list_elem_of_fmap. eauto. }
  split; [done|]. split; [|split].
  - intros now Hin. apply (Hfresh _ Hin). cbn [itemToRSSItem guid]. rewrite Hp.
    apply list_elem_of_fmap. eauto.
  - rewrite occurrences_app, Hnew, Hone. done.
  - unfold finalItems. etrans; [apply occurrences_take|].
    rewrite (occurrences_perm _ _ _ (sort_perm _ _)), occurrences_app, Hnew, Hone. done.
Qed.

End ClaimC7.

(** C7, as stated, fails: the items of the previous feed are kept as they
    are.  On the feed of the direct variant that holds the budget post twice,
    a run that fetches the post again writes it twice. *)
Lemma C7_copies_of_prior_feed_remain :
  Examples.budget_item
    ∈ (Playwright.parseExistingFeed (Playwright.FileContent Examples.doubled_feed)).1
  ∧ Playwright.generateGUID Examples.budget = guid Examples.budget_item
  ∧ occurrences (guid Examples.budget_item)
      (Playwright.finalItems (Playwright.FileContent Examples.doubled_feed)
         Examples.page_budget Examples.clock) = 2%nat.
Proof.
  split; [|split].
  - assert ((Playwright.parseExistingFeed
               (Playwright.FileContent Examples.doubled_feed)).1
            = [Examples.budget_item; Examples.budget_item]) as ->.
    { vm_compute. reflexivity. }
    left.
  - vm_compute. reflexivity.
  - vm_compute. reflexivity.
Qed.

Lemma C7_witness :
  Playwright.generateGUID Examples.moved = guid Examples.budget_item
  ∧ (occurrences (guid Examples.budget_item)
       (Playwright.finalItems (Playwright.FileContent Examples.first_feed)
          Examples.page_empty Examples.clock) ≤ 1)%nat.
Proof.
  assert ((Playwright.parseExistingFeed
             (Playwright.FileContent Examples.first_feed)).1
          = [Examples.budget_item]) as Hfeed.
  { vm_compute. reflexivity. }
  assert (Examples.budget_item
            ∈ (Playwright.parseExistingFeed
                 (Playwright.FileContent Examples.first_feed)).1) as Hin.
  { rewrite Hfeed. left. }
  assert (occurrences (guid Examples.budget_item)
            (Playwright.parseExistingFeed
               (Playwright.FileContent Examples.first_feed)).1 = 1%nat) as Hone.
  { rewrite Hfeed. vm_compute. reflexivity. }
  assert (guid Examples.budget_item = Playwright.generateGUID Examples.budget) as Hguid.
  { vm_compute. reflexivity. }
  destruct (C7_unchanged_post_is_deduplicated
              (Playwright.FileContent Examples.first_feed) Examples.page_empty
              Examples.clock Examples.budget_item Examples.budget Examples.moved
              Hin Hone Hguid eq_refl eq_refl eq_refl eq_refl) as (Hg & _ & _ & Hf).
  exact (conj Hg Hf).
Defined.

(** ** C10: an answer without posts counts as a failed fetch *)

Section Empty.
Context `{Runtime}.
Import Playwright.

Lemma same_merge_log s1 s2 e1 e2 : same_merge s1 s2 → same_merge (log s1 e1) (log s2 e2).
Proof. by intros (? & ? & ? & ?). Qed.

Lemma same_merge_visit_post clock s1 s2 post :
  same_merge s1 s2 → same_merge (visit_post clock s1 post) (visit_post clock s2 post).
Proof.
  intros (Hg & Hl & Hn & Ht). unfold visit_post. rewrite Hg, Hl, Hn, Ht.
  by case_match.
Qed.

Lemma same_merge_visit_url page1 page2 clock s1 s2 url :
  (fetchJSONWithPlaywright url (page1 url)).1 = (fetchJSONWithPlaywright url (page2 url)).1 →
  same_merge s1 s2 →
  same_merge (visit_url page1 clock s1 url) (visit_url page2 clock s2 url).
Proof.
  intros Hp Hs. unfold visit_url.
  destruct (fetchJSONWithPlaywright url (page1 url)) as [items1 e1].
  destruct (fetchJSONWithPlaywright url (page2 url)) as [items2 e2].
  cbn [fst] in Hp. subst items2. destruct items1 as [items|].
  - apply same_merge_log.
    generalize (log s1 e1) (log s2 e2) (same_merge_log _ _ e1 e2 Hs).
    induction items as [|p items IH]; intros t1 t2 Ht; simpl; [done|].
    by apply IH, same_merge_visit_post.
  - by do 2 apply same_merge_log.
Qed.

Lemma same_merge_collected file page1 page2 clock :
  (∀ url, (fetchJSONWithPlaywright url (page1 url)).1
          = (fetchJSONWithPlaywright url (page2 url)).1) →
  same_merge (collected file page1 clock) (collected file page2 clock).
Proof.
  intros Hp. unfold collected. destruct (parseExistingFeed file) as [existing es].
  match goal with |- same_merge (fold_left _ _ ?s) _ =>
    generalize s at 1 2; intros s0; assert (same_merge s0 s0) as Hs by done;
    revert Hs; generalize s0 at 1 3; generalize s0 end.
  generalize apiURLs. intros urls. induction urls as [|u urls IH]; intros t1 t2 Ht; simpl; [done|].
  by apply IH, same_merge_visit_url.
Qed.

(** C10: an answer that is valid JSON without posts makes
    [fetchJSONWithPlaywright] return [null], as a failed fetch does; and the
    merge only sees what that function returns: two runs whose endpoints
    return the same posts, or [null], write the same feed. *)
Theorem C10_empty_answer_is_failed_fetch file page clock url text data :
  Js.startsWith "{" (Js.trimStart text) = true →
  posts_of data = [] →
  page url = EvaluateResolves text (JsonValue (JsonObject data)) →
  let page' := λ u, if String.eqb u url then EvaluateRejects else page u in
  (fetchJSONWithPlaywright url (page url)).1 = None
  ∧ (fetchJSONWithPlaywright url (page' url)).1 = None
  ∧ same_merge (collected file page clock) (collected file page' clock)
  ∧ finalItems file page clock = finalItems file page' clock
  ∧ written (main file page clock) = written (main file page' clock).
Proof.
  intros Hjson Hposts Hpage page'.
  assert ((fetchJSONWithPlaywright url (page url)).1 = None) as H1.
  { rewrite Hpage. unfold fetchJSONWithPlaywright. rewrite Hjson, Hposts. reflexivity. }
  assert ((fetchJSONWithPlaywright url (page' url)).1 = None) as H2.
  { unfold page'. by rewrite String.eqb_refl. }
  assert (same_merge (collected file page clock) (collected file page' clock)) as Hs.
  { apply same_merge_collected. intros u. unfold page' at 1.
    destruct (String.eqb_spec u url) as [->|Hne]; [|done]. by rewrite H1. }
  assert (finalItems file page clock = finalItems file page' clock) as Hf.
  { unfold finalItems. destruct Hs as (_ & _ & -> & _). done. }
  repeat split; try done; try apply Hs.
  rewrite !playwright_main_writes, Hf. by destruct Hs as (_ & _ & _ & ->).
Qed.

End Empty.

Lemma C10_witness :
  Playwright.finalItems Playwright.NoFile Examples.page_empty Examples.clock
  = Playwright.finalItems Playwright.NoFile
      (λ u, if String.eqb u Examples.url52 then Playwright.EvaluateRejects
            else Examples.page_empty u) Examples.clock.
Proof.
  destruct (C10_empty_answer_is_failed_fetch Playwright.NoFile Examples.page_empty
              Examples.clock Examples.url52 Examples.body
              {| api_posts := Some []; api_content_items := None |}
              eq_refl eq_refl eq_refl) as (_ & _ & _ & Hf & _).
  exact Hf.
Defined.

(** ** C6: newest first *)


Section Order.
Context `{Runtime}.



End Order.


Ltac compute_some :=
  match goal with
  | |- is_Some ?x =>
      let v := eval vm_compute in x in
      match v with Some ?t => exists t; vm_compute; reflexivity end
  end.

Ltac compute_list :=
  match goal with
  | |- Forall _ ?l =>
      let v := eval vm_compute in l in
      replace l with v by (vm_compute; reflexivity)
  end.


(** ** C4: time-out, retries, and endpoints that fail *)

Lemma requests_app (l1 l2 : list event) : requests (l1 ++ l2) = requests l1 ++ requests l2.
Proof. apply omap_app. Qed.

Lemma sleeps_app (l1 l2 : list event) : sleeps (l1 ++ l2) = sleeps l1 ++ sleeps l2.
Proof. apply omap_app. Qed.

Lemma toLowerCase_app (a b : string) :
  Js.toLowerCase (a +:+ b) = Js.toLowerCase a +:+ Js.toLowerCase b.
Proof. induction a as [|c a IH]; simpl; [done|]. by rewrite IH. Qed.

Lemma strip_prefix_app (p s : string) : Js.strip_prefix p (p +:+ s) = Some s.
Proof.
  induction p as [|c p IH]; simpl; [by destruct s|]. by rewrite Ascii.eqb_refl.
Qed.

Lemma includes_prefix (p s : string) : Js.includes p (p +:+ s) = true.
Proof.
  unfold Js.includes. destruct (p +:+ s) as [|c r] eqn:E; simpl.
  - destruct p; [done|discriminate].
  - unfold Js.startsWith. rewrite <- E, strip_prefix_app. done.
Qed.

(** An HTML answer is always retried: the message the script builds for it
    matches the pattern. *)
Lemma html_is_transient status :
  Direct.transient ("HTML response status=" +:+ Js.decimal status) = true.
Proof.
  unfold Direct.transient, Direct.transient_patterns.
  cbn [existsb].
  change ("HTML response status=" +:+ Js.decimal status)
    with ("HTML response" +:+ (" status=" +:+ Js.decimal status)).
  rewrite (toLowerCase_app "HTML response").
  change (Js.toLowerCase "HTML response") with "html response".
  rewrite includes_prefix. by rewrite !orb_true_r.
Qed.

Section Fetch.

Lemma backoff_doubles i : Direct.backoff (S i) = 2 * Direct.backoff i.
Proof. unfold Direct.backoff. rewrite Nat2Z.inj_succ, Z.pow_succ_r; lia. Qed.

Lemma fetchJsonSafe_spec url net :
  ∃ k, (1 ≤ k ≤ 3)%nat
    ∧ (Direct.fetchJsonSafe url net).2 = attempts_trace url k
    ∧ (∀ i, (1 ≤ i < k)%nat →
         ∃ e, Direct.attempt_result (net i) = inr e
              ∧ Direct.transient (Direct.message e) = true)
    ∧ match Direct.attempt_result (net k) with
      | inl v => (Direct.fetchJsonSafe url net).1 = Direct.Returned v
      | inr e => (Direct.fetchJsonSafe url net).1 = Direct.Thrown (Some e)
                 ∧ (Direct.transient (Direct.message e) = false ∨ k = 3%nat)
      end.
Proof.
  unfold Direct.fetchJsonSafe, Direct.maxRetries. cbn [Direct.attempts].
  destruct (Direct.attempt_result (net 1%nat)) as [v1|e1] eqn:E1.
  { exists 1%nat. rewrite E1. split; [lia|]. split; [reflexivity|].
    split; [intros i Hi; lia|reflexivity]. }
  destruct (Direct.transient (Direct.message e1)) eqn:T1; cbn [negb orb Nat.eqb].
  2:{ exists 1%nat. rewrite E1. split; [lia|]. split; [reflexivity|].
      split; [intros i Hi; lia|]. split; [reflexivity|by left]. }
  destruct (Direct.attempt_result (net 2%nat)) as [v2|e2] eqn:E2.
  { exists 2%nat. rewrite E2. split; [lia|]. split; [reflexivity|].
    split; [|reflexivity]. intros i Hi. assert (i = 1%nat) as -> by lia. eauto. }
  destruct (Direct.transient (Direct.message e2)) eqn:T2; cbn [negb orb Nat.eqb].
  2:{ exists 2%nat. rewrite E2. split; [lia|]. split; [reflexivity|].
      split; [|split; [reflexivity|by left]].
      intros i Hi. assert (i = 1%nat) as -> by lia. eauto. }
  exists 3%nat. split; [lia|].
  assert (∀ i, (1 ≤ i < 3)%nat →
            ∃ e, Direct.attempt_result (net i) = inr e
                 ∧ Direct.transient (Direct.message e) = true) as Hprev.
  { intros i Hi. assert (i = 1 ∨ i = 2)%nat as [-> | ->] by lia; eauto. }
  destruct (Direct.attempt_result (net 3%nat)) as [v3|e3] eqn:E3.
  { split; [reflexivity|]. split; [exact Hprev|reflexivity]. }
  rewrite orb_true_r. split; [reflexivity|]. split; [exact Hprev|].
  split; [reflexivity|by right].
Qed.

End Fetch.

Section Endpoints.
Context `{Runtime}.

Lemma load_step net acc u :
  (Direct.load net acc u).1 = acc.1 ++ posts_from (Direct.fetchJsonSafe u (net u)).1
  ∧ requests (Direct.load net acc u).2
    = requests acc.2 ++ requests (Direct.fetchJsonSafe u (net u)).2.
Proof.
  destruct acc as [allItems log]. unfold Direct.load.
  destruct (Direct.fetchJsonSafe u (net u)) as [r es]. cbn [fst snd].
  destruct r as [[| |data]|[err|]]; cbn [fst snd posts_from];
    rewrite ?requests_app, ?app_nil_r; try done.
  destruct (Direct.snippet err); cbn; by rewrite ?app_nil_r.
Qed.

Lemma load_fold net urls acc :
  (fold_left (Direct.load net) urls acc).1
  = acc.1 ++ concat (map (λ u, posts_from (Direct.fetchJsonSafe u (net u)).1) urls)
  ∧ requests (fold_left (Direct.load net) urls acc).2
    = requests acc.2 ++ concat (map (λ u, requests (Direct.fetchJsonSafe u (net u)).2) urls).
Proof.
  revert acc. induction urls as [|u urls IH]; intros acc; cbn [fold_left map concat].
  { by rewrite !app_nil_r. }
  destruct (IH (Direct.load net acc u)) as [IH1 IH2]. rewrite IH1, IH2.
  destruct (load_step net acc u) as [-> ->]. by rewrite <- !app_assoc.
Qed.

(** Every endpoint is fetched, whatever the others did, and the posts of
    those that answered are all there. *)
Lemma fetchAll_endpoints net :
  (Direct.fetchAll net).1
  ≡ₚ concat (map (λ u, posts_from (Direct.fetchJsonSafe u (net u)).1) apiURLs)
  ∧ requests (Direct.fetchAll net).2
    = concat (map (λ u, requests (Direct.fetchJsonSafe u (net u)).2) apiURLs).
Proof.
  unfold Direct.fetchAll. destruct (load_fold net apiURLs ([], [])) as [H1 H2].
  destruct (fold_left (Direct.load net) apiURLs ([], [])) as [allItems log].
  cbn [fst snd] in *. split; [|done]. by rewrite sort_perm, H1.
Qed.

Lemma parseExistingFeed_requests file : requests (Playwright.parseExistingFeed file).2 = [].
Proof. unfold Playwright.parseExistingFeed. repeat case_match; reflexivity. Qed.

Lemma fetchJSONWithPlaywright_requests url r :
  requests (Playwright.fetchJSONWithPlaywright url r).2 = [(url, None)]
  ∧ sleeps (Playwright.fetchJSONWithPlaywright url r).2 = [].
Proof. unfold Playwright.fetchJSONWithPlaywright. repeat case_match; done. Qed.

Lemma visit_url_requests page clock st url :
  requests (Playwright.trace (Playwright.visit_url page clock st url))
  = requests (Playwright.trace st) ++ [(url, None)].
Proof.
  unfold Playwright.visit_url.
  destruct (fetchJSONWithPlaywright_requests url (page url)) as [Hf _].
  destruct (Playwright.fetchJSONWithPlaywright url (page url)) as [[items|] es];
    cbn [snd] in Hf; cbn [Playwright.log Playwright.trace].
  - rewrite visit_posts_trace. cbn. by rewrite !requests_app, Hf, app_nil_r.
  - by rewrite !requests_app, Hf, app_nil_r.
Qed.

(** The Playwright run asks every endpoint once, in order. *)
Lemma collected_requests file page clock :
  requests (Playwright.trace (Playwright.collected file page clock))
  = map (λ u, (u, None)) apiURLs.
Proof.
  unfold Playwright.collected.
  pose proof (parseExistingFeed_requests file) as Hp.
  destruct (Playwright.parseExistingFeed file) as [existing es]. cbn [snd] in Hp.
  assert (∀ urls st,
            requests (Playwright.trace (fold_left (Playwright.visit_url page clock) urls st))
            = requests (Playwright.trace st) ++ map (λ u, (u, None)) urls) as Hfold.
  { induction urls as [|u urls IH]; intros st; simpl; [by rewrite app_nil_r|].
    by rewrite IH, visit_url_requests, <- app_assoc. }
  rewrite Hfold. cbn [Playwright.trace]. by rewrite Hp.
Qed.


End Endpoints.


(** ** Strings *)

Lemma append_cons (c : ascii) (s t : string) : String c s +:+ t = String c (s +:+ t).
Proof. reflexivity. Qed.

Lemma append_nil_l (t : string) : "" +:+ t = t.
Proof. reflexivity. Qed.

Lemma append_nil_r (s : string) : s +:+ "" = s.
Proof. induction s as [|c s IH]; [done|]. by rewrite append_cons, IH. Qed.

Lemma append_assoc (a b c : string) : (a +:+ b) +:+ c = a +:+ (b +:+ c).
Proof. induction a as [|x a IH]; [done|]. by rewrite !append_cons, IH. Qed.

Lemma snoc_append (a : string) (c : ascii) (b : string) :
  Sax.snoc a c +:+ b = a +:+ String c b.
Proof. unfold Sax.snoc. by rewrite append_assoc. Qed.

(** ** The scanner on the pieces of a document *)

Module SaxFacts.
Import Sax Feed.

Lemma run_app m a b :
  run m (a +:+ b) = let '(m1, e1) := run m a in let '(m2, e2) := run m1 b in (m2, e1 ++ e2).
Proof.
  revert m. induction a as [|c a IH]; intros m; rewrite ?append_cons, ?append_nil_l; simpl.
  - by destruct (run m b).
  - destruct (step m c) as [m1 e1]. rewrite IH.
    destruct (run m1 a) as [m2 e2]. destruct (run m2 b) as [m3 e3].
    by rewrite app_assoc.
Qed.

Lemma events_app m a b :
  events m (a +:+ b) = (run m a).2 ++ events (run m a).1 b.
Proof.
  revert m. induction a as [|c a IH]; intros m; rewrite ?append_cons, ?append_nil_l; simpl;
    [done|].
  destruct (step m c) as [m1 e1]. rewrite IH.
  destruct (run m1 a) as [m2 e2]. cbn [fst snd]. by rewrite app_assoc.
Qed.

Lemma plain_app a b : plain (a +:+ b) = plain a && plain b.
Proof.
  unfold plain. induction a as [|c a IH]; rewrite ?append_cons, ?append_nil_l; simpl; [done|].
  by rewrite IH, andb_assoc.
Qed.

Lemma run_plain t w : plain w = true → run (TEXT t) w = (TEXT (t +:+ w), []).
Proof.
  revert t. induction w as [|c w IH]; intros t Hw; simpl.
  - by rewrite append_nil_r.
  - unfold plain in Hw. simpl in Hw.
    apply andb_true_iff in Hw as [Hc Hw]. apply andb_true_iff in Hc as [H1 H2].
    apply negb_true_iff in H1, H2. rewrite H1, H2.
    rewrite (IH _ Hw). by rewrite snoc_append.
Qed.

Lemma includes_cons p c s :
  Js.includes p (String c s) = false →
  Js.startsWith p (String c s) = false ∧ Js.includes p s = false.
Proof. unfold Js.includes. simpl. by intros [? ?]%orb_false_iff. Qed.

Lemma run_cdata w :
  (Js.includes "]]>" w = false →
   ∀ d, run (CDATA d) (w +:+ "]]>") = closed_cdata (d +:+ w))
  ∧ (Js.includes "]]>" ("]" +:+ w) = false →
     ∀ d, run (CDATA_ENDING d) (w +:+ "]]>") = closed_cdata (d +:+ "]" +:+ w))
  ∧ (Js.includes "]]>" ("]]" +:+ w) = false →
     ∀ d, run (CDATA_ENDING_2 d) (w +:+ "]]>") = closed_cdata (d +:+ "]]" +:+ w)).
Proof.
  induction w as [|c w (IH1 & IH2 & IH3)].
  - repeat split; intros _ d; rewrite append_nil_l; cbn; unfold closed_cdata;
      rewrite ?app_nil_r, ?append_nil_r; unfold snoc; by rewrite ?append_assoc.
  - split; [|split]; intros Hw d; rewrite append_cons; cbn [run step].
    + apply includes_cons in Hw as [Hs Hw].
      destruct (Ascii.eqb_spec c "]") as [->|Hc].
      * rewrite IH2; [done|]. unfold Js.includes in *. cbn [Js.includes_aux].
        apply orb_false_iff. split; [|done]. exact Hs.
      * rewrite IH1 by done. by rewrite snoc_append.
    + apply includes_cons in Hw as [Hs Hw].
      destruct (Ascii.eqb_spec c "]") as [->|Hc].
      * rewrite IH3; [done|]. unfold Js.includes in *. cbn [Js.includes_aux append].
        apply orb_false_iff. split; [exact Hs|]. exact Hw.
      * apply includes_cons in Hw as [_ Hw]. rewrite IH1 by done.
        unfold snoc. by rewrite !append_assoc.
    + pose proof Hw as Hw0. apply includes_cons in Hw as [Hs Hw].
      destruct (Ascii.eqb_spec c ">") as [->|Hc]; [discriminate Hs|].
      destruct (Ascii.eqb_spec c "]") as [->|Hc'].
      * rewrite IH3; [|exact Hw]. unfold snoc. by rewrite !append_assoc.
      * apply includes_cons in Hw as [_ Hw]. apply includes_cons in Hw as [_ Hw].
        rewrite IH1 by done. unfold snoc. by rewrite !append_assoc.
Qed.

End SaxFacts.

(** ** The scanner on a feed the scripts wrote *)

Module FeedScan.
Import Sax Feed SaxFacts.

Lemma rss_item_pieces t l d p g :
  rss_item t l d p g
  = item_1 +:+ t +:+ item_2 +:+ l +:+ item_3 +:+ d +:+ "]]>" +:+ item_4 +:+ p
    +:+ item_5 +:+ g +:+ item_6.
Proof. reflexivity. Qed.

(** After text [d], a piece that starts with a tag. *)
Lemma run_after_text d s :
  Js.startsWith "<" s = true →
  run (TEXT d) s = ((run (TEXT "") s).1, closeText d ++ (run (TEXT "") s).2).
Proof.
  destruct s as [|c s]; [done|]. unfold Js.startsWith. cbn [Js.strip_prefix].
  destruct (Ascii.eqb_spec "<" c) as [<-|]; [|done]. intros _. cbn [run step].
  change (Ascii.eqb "<" "<") with true. cbn iota.
  destruct (run OPEN_WAKA s) as [m es]. cbn [fst snd closeText]. reflexivity.
Qed.

Lemma chardata_run w d : chardata w = Some d → run (TEXT "") w = (TEXT d, []).
Proof.
  unfold chardata. destruct (run (TEXT "") w) as [m es].
  destruct m; try done. destruct es; [|done]. by intros [= ->].
Qed.

Ltac run_piece :=
  match goal with
  | |- context [run (TEXT ?d) ?s] =>
      rewrite (run_after_text d s) by reflexivity;
      let r := eval vm_compute in (run (TEXT "") s) in
      change (run (TEXT "") s) with r; cbn [fst snd]
  end.

Lemma run_header n d :
  chardata n = Some d → run (TEXT "") (rss_header n) = (TEXT Js.nl, header_events d).
Proof.
  intros Hn%chardata_run. unfold rss_header.
  rewrite run_app.
  replace (run (TEXT "") rss_header_start)
    with (TEXT "", (run (TEXT "") rss_header_start).2) by (vm_compute; reflexivity).
  rewrite run_app, Hn. run_piece.
  vm_compute (run _ rss_header_start).2. reflexivity.
Qed.

Lemma run_item t l d p g dt dl dp dg :
  chardata t = Some dt → chardata l = Some dl → Js.includes "]]>" d = false →
  chardata p = Some dp → chardata g = Some dg →
  run (TEXT Js.nl) (rss_item t l d p g) = (TEXT Js.nl, item_events dt dl d dp dg).
Proof.
  intros Ht%chardata_run Hl%chardata_run Hd Hp%chardata_run Hg%chardata_run.
  rewrite rss_item_pieces.
  rewrite run_app.
  replace (run (TEXT Js.nl) item_1)
    with (TEXT "", [Text ws4; OpenTag "item" []; Text ws6; OpenTag "title" []])
    by (vm_compute; reflexivity).
  rewrite run_app, Ht, run_app. run_piece.
  rewrite run_app, Hl, run_app. run_piece.
  rewrite <- (append_assoc d "]]>"), run_app.
  destruct (run_cdata d) as [Hc _]. rewrite (Hc Hd ""), append_nil_l.
  unfold closed_cdata.
  rewrite run_app. run_piece.
  rewrite run_app, Hp, run_app. run_piece.
  rewrite run_app, Hg. run_piece.
  unfold item_events. rewrite <- !app_assoc. reflexivity.
Qed.

Lemma events_footer : events (TEXT Js.nl) rss_footer = footer_events.
Proof. vm_compute. reflexivity. Qed.

End FeedScan.

(** ** The builder on a feed the scripts wrote *)

Module FeedBuild.
Import Sax Xml2js Feed FeedScan.

Lemma add_text_empty f : add_text f "" false = f.
Proof. destruct f. unfold add_text. cbn. by rewrite append_nil_r, orb_false_r. Qed.

Lemma build_text f st s es :
  build (f :: st) (Text s :: es) = build (add_text f s false :: st) es.
Proof. reflexivity. Qed.

Lemma build_closeText f st t es :
  build (f :: st) (closeText t ++ es) = build (add_text f t false :: st) es.
Proof.
  unfold closeText. destruct (String.eqb_spec t "") as [->|Hne]; [|done].
  by rewrite add_text_empty.
Qed.

Lemma build_cdata f st d es :
  build (f :: st) ((if String.eqb d "" then [] else [CData d]) ++ es)
  = build (add_text f d (negb (String.eqb d "")) :: st) es.
Proof.
  destruct (String.eqb_spec d "") as [->|Hne]; [|done].
  cbn [negb app]. by rewrite add_text_empty.
Qed.

Lemma build_open st n a es :
  is_reserved n || existsb (λ kv, is_reserved kv.1) a = false →
  build st (OpenTag n a :: es) = build (open n a :: st) es.
Proof. intros Hr. cbn [build]. by rewrite Hr. Qed.

Lemma build_close f p st n es :
  String.eqb (f_name f) n = true →
  build (f :: p :: st) (CloseTag n :: es) = build (add_child p n (value_of f) :: st) es.
Proof. intros Hn. cbn [build]. by rewrite Hn. Qed.

(** The value of a leaf: an element with text only. *)
Lemma value_of_leaf n t c :
  value_of (add_text (open n []) t c) = XStr t.
Proof. reflexivity. Qed.

Ltac build_step :=
  first
    [ rewrite build_text
    | rewrite build_closeText
    | rewrite build_cdata
    | rewrite build_open by reflexivity
    | rewrite build_close by reflexivity ].

Lemma build_item ch st t l d p g es :
  blank g = false →
  build (ch :: st) (item_events t l d p g ++ es)
  = build (add_child (add_text ch ws4 false) "item" (item_value t l d p g) :: st) es.
Proof.
  intros Hg. unfold item_events. rewrite <- !app_assoc. cbn [app].
  repeat build_step. cbn [app]. repeat build_step.
  rewrite !value_of_leaf.
  f_equal. f_equal. f_equal.
  assert (value_of (add_text (open "guid" [("isPermaLink", "false")]) g false)
          = XObj (Some g) [("isPermaLink", "false")] []) as ->.
  { unfold value_of, add_text, open. cbn [f_attrs f_children f_text f_cdata].
    change ("" +:+ g) with g. by rewrite Hg. }
  reflexivity.
Qed.

End FeedBuild.

(** ** Reading back a feed *)

Module FeedRead.
Import Sax Xml2js Feed SaxFacts FeedScan FeedBuild.

Lemma generateRSS_text `{Runtime} now items :
  Playwright.generateRSS now items
  = rss_header (Date.toUTCString now) +:+ items_text items +:+ rss_footer.
Proof.
  unfold Playwright.generateRSS. rewrite <- append_assoc. f_equal.
  generalize (rss_header (Date.toUTCString now)).
  induction items as [|i items IH]; intros acc; simpl; [by rewrite append_nil_r|].
  by rewrite IH, append_assoc.
Qed.

Lemma read_back_inv i i' :
  read_back i = Some i' →
  chardata (title i) = Some (title i') ∧ chardata (link i) = Some (link i')
  ∧ chardata (pubDate i) = Some (pubDate i') ∧ chardata (guid i) = Some (guid i')
  ∧ Js.includes "]]>" (description i) = false ∧ blank (guid i') = false
  ∧ description i' = Js.remove_all "<![CDATA[" "]]>" (description i).
Proof.
  unfold read_back. intros Hr.
  destruct (chardata (title i)) as [t|]; [|done].
  destruct (chardata (link i)) as [l|]; [|done].
  destruct (chardata (pubDate i)) as [p|]; [|done].
  destruct (chardata (guid i)) as [g|]; [|done]. cbn in Hr.
  destruct (Js.includes "]]>" (description i)); [done|].
  destruct (blank g) eqn:Hb; [done|]. cbn in Hr. injection Hr as <-. by cbn.
Qed.

(** Scanning and building the items and the footer, the channel being open. *)
Lemma build_items ch st items items' :
  mapM read_back items = Some items' →
  build (ch :: st) (events (TEXT Js.nl) (items_text items +:+ rss_footer))
  = build (fold_left push_item (zip_with value_for items items') ch :: st) footer_events.
Proof.
  revert ch items'. induction items as [|i items IH]; intros ch items' Hr.
  - apply mapM_Some in Hr. apply Forall2_nil_inv_l in Hr as ->.
    cbn [items_text fold_right zip_with fold_left]. rewrite append_nil_l.
    by rewrite events_footer.
  - cbn [mapM] in Hr.
    destruct (read_back i) as [i'|] eqn:Hi; [|done]. cbn in Hr.
    destruct (mapM read_back items) as [items''|] eqn:Hitems; [|done]. cbn in Hr.
    injection Hr as <-.
    apply read_back_inv in Hi as (Ht & Hl & Hp & Hg & Hd & Hb & _).
    cbn [items_text fold_right zip_with fold_left]. rewrite append_assoc, events_app.
    rewrite (run_item _ _ _ _ _ _ _ _ _ Ht Hl Hd Hp Hg). cbn [fst snd].
    rewrite build_item by done. by apply IH.
Qed.

End FeedRead.

Module FeedParse.
Import Sax Xml2js Feed SaxFacts FeedScan FeedBuild FeedRead.

Lemma build_header d es :
  build [] (header_events d ++ es) = build [channel_frame d; rss_frame] es.
Proof.
  unfold header_events. rewrite <- !app_assoc. cbn [app].
  change (build [] (Text Js.nl :: ?l)) with (build [] l).
  repeat build_step. cbn [app]. repeat build_step.
  reflexivity.
Qed.

Lemma array_assignOrPush cs n m v :
  array (assignOrPush cs n v) m = if String.eqb n m then array cs m ++ [v] else array cs m.
Proof.
  unfold array. induction cs as [|[k [v0 vs]] cs IH]; cbn [assignOrPush find fst].
  - destruct (String.eqb n m); done.
  - destruct (String.eqb_spec k n) as [->|Hkn]; cbn [find fst].
    + destruct (String.eqb_spec n m) as [->|Hnm]; [done|]. done.
    + destruct (String.eqb_spec k m) as [->|Hkm].
      * destruct (String.eqb_spec n m) as [->|Hnm]; done.
      * exact IH.
Qed.

Lemma array_push_items vs ch :
  array (f_children (fold_left push_item vs ch)) "item"
  = array (f_children ch) "item" ++ vs.
Proof.
  revert ch. induction vs as [|v vs IH]; intros ch; cbn [fold_left]; [by rewrite app_nil_r|].
  rewrite IH. unfold push_item. cbn [add_child add_text f_children].
  rewrite array_assignOrPush. change (String.eqb "item" "item") with true.
  cbn iota. by rewrite <- app_assoc.
Qed.

Lemma array_other_push_items vs ch n :
  String.eqb "item" n = false →
  array (f_children (fold_left push_item vs ch)) n = array (f_children ch) n.
Proof.
  intros Hn. revert ch. induction vs as [|v vs IH]; intros ch; cbn [fold_left]; [done|].
  rewrite IH. unfold push_item. cbn [add_child add_text f_children].
  by rewrite array_assignOrPush, Hn.
Qed.

Lemma child_array v n :
  child v n = match v with
              | XStr _ => None
              | XObj _ _ cs =>
                  match array cs n with
                  | [] => None
                  | x :: xs => Some (x, xs)
                  end
              end.
Proof.
  destruct v as [s|t a cs]; [done|]. unfold child, array.
  destruct (find _ cs) as [[k [x xs]]|]; done.
Qed.

(** The children of an element that has some, whatever its text. *)
Lemma child_value_of f n :
  child (value_of f) n = match array (f_children f) n with
                         | [] => None
                         | x :: xs => Some (x, xs)
                         end.
Proof.
  rewrite child_array. unfold value_of.
  destruct (f_attrs f), (f_children f); try done; by destruct (_ && _).
Qed.

Lemma feed_items_rss f :
  f_attrs f ≠ [] →
  Playwright.feed_items "rss" (value_of f)
  = match child (value_of f) "channel" with
    | Some (channel0, _) => child channel0 "item"
    | None => None
    end.
Proof.
  intros Ha. unfold Playwright.feed_items. cbn [String.eqb Ascii.eqb negb].
  change (String.eqb "rss" "rss") with true. cbn [negb].
  unfold value_of. destruct (f_attrs f); [done|]. by destruct (_ && _).
Qed.

End FeedParse.

Module FeedRoundTrip.
Import Sax Xml2js Feed SaxFacts FeedScan FeedBuild FeedRead FeedParse.

Lemma ws_prefix_lt r : Js.ws_prefix (String "<" r) = None.
Proof. destruct r as [|b [|c r]]; reflexivity. Qed.

Lemma blank_lt r : blank (String "<" r) = false.
Proof.
  unfold blank, Js.trimStart. cbn [String.length Js.trimStart_aux].
  by rewrite ws_prefix_lt.
Qed.

Lemma stripBOM_lt r : stripBOM (String "<" r) = String "<" r.
Proof. reflexivity. Qed.

Lemma build_footer ch :
  f_name ch = "channel" →
  build [ch; rss_frame] footer_events = Some (Resolved (Some ("rss", root_of ch))).
Proof.
  intros Hn. unfold footer_events. rewrite build_text.
  rewrite build_close by (cbn [add_text f_name]; by rewrite Hn).
  rewrite build_text. cbn [build]. reflexivity.
Qed.

Lemma push_items_name vs ch : f_name (fold_left push_item vs ch) = f_name ch.
Proof. revert ch. induction vs as [|v vs IH]; intros ch; cbn [fold_left]; [done|]. by rewrite IH. Qed.

Ltac rw_child :=
  match goal with
  | |- context [child (value_of ?a) ?b] =>
      let HH := fresh in pose proof (child_value_of a b) as HH; rewrite HH; clear HH
  end.

Lemma feed_items_root ch :
  Playwright.feed_items "rss" (root_of ch)
  = match array (f_children ch) "item" with
    | [] => None
    | x :: xs => Some (x, xs)
    end.
Proof.
  unfold root_of. rewrite feed_items_rss by done.
  rw_child.
  set (v := value_of (add_text ch (Js.nl +:+ "  ") false)).
  change (array _ "channel") with [v]. subst v. cbn iota.
  rw_child. reflexivity.
Qed.

(** What [xml2js] makes of a feed whose build date and items read back. *)
Lemma parse_feed `{Runtime} now items items' d :
  chardata (Date.toUTCString now) = Some d →
  mapM read_back items = Some items' →
  Xml2js.parse (Playwright.generateRSS now items)
  = Some (Resolved (Some ("rss",
            root_of (fold_left push_item (zip_with value_for items items')
                       (channel_frame d))))).
Proof.
  intros Hd Hitems. rewrite generateRSS_text. unfold parse.
  assert (∃ r, rss_header (Date.toUTCString now) +:+ items_text items +:+ rss_footer
               = String "<" r) as [r Hr] by (eexists; reflexivity).
  rewrite Hr, blank_lt, stripBOM_lt, <- Hr.
  rewrite events_app, (run_header _ _ Hd). cbn [fst snd].
  rewrite build_header, (build_items _ _ _ _ Hitems).
  apply build_footer. by rewrite push_items_name.
Qed.

Lemma item_of_item_value `{Runtime} t l d p g :
  g ≠ "" →
  Playwright.item_of (item_value t l d p g)
  = Some {| title := t; link := l; description := Js.remove_all "<![CDATA[" "]]>" d;
            pubDate := p; guid := g |}.
Proof.
  intros Hg. unfold Playwright.item_of.
  change (child (item_value t l d p g) "title") with (Some (XStr t, @nil xvalue)).
  change (child (item_value t l d p g) "link") with (Some (XStr l, @nil xvalue)).
  change (child (item_value t l d p g) "description") with (Some (XStr d, @nil xvalue)).
  change (child (item_value t l d p g) "pubDate") with (Some (XStr p, @nil xvalue)).
  change (child (item_value t l d p g) "guid")
    with (Some (XObj (Some g) [("isPermaLink", "false")] [], @nil xvalue)).
  cbn [mbind option_bind fst to_string].
  by destruct (String.eqb_spec g "").
Qed.

Lemma item_of_value `{Runtime} i i' :
  read_back i = Some i' → Playwright.item_of (value_for i i') = Some i'.
Proof.
  intros (Ht & Hl & Hp & Hg & Hd & Hb & Hdesc)%read_back_inv.
  unfold value_for. rewrite item_of_item_value.
  - rewrite <- Hdesc. by destruct i'.
  - intros Hg0. by rewrite Hg0 in Hb.
Qed.

Lemma items_of_values `{Runtime} items items' :
  mapM read_back items = Some items' →
  Playwright.items_of (zip_with value_for items items') = Some items'.
Proof.
  revert items'. induction items as [|i items IH]; intros items' Hr.
  - apply mapM_Some in Hr. by apply Forall2_nil_inv_l in Hr as ->.
  - cbn [mapM] in Hr.
    destruct (read_back i) as [i'|] eqn:Hi; [|done]. cbn in Hr.
    destruct (mapM read_back items) as [items''|] eqn:Hitems; [|done]. cbn in Hr.
    injection Hr as <-. cbn [zip_with Playwright.items_of].
    rewrite (item_of_value _ _ Hi). cbn. rewrite (IH _ eq_refl). done.
Qed.

(** [parseExistingFeed] reads back the items of such a feed, in order. *)
Lemma parseExistingFeed_feed `{Runtime} now items items' d :
  chardata (Date.toUTCString now) = Some d →
  mapM read_back items = Some items' →
  (Playwright.parseExistingFeed (Playwright.FileContent (Playwright.generateRSS now items))).1
  = items'.
Proof.
  intros Hd Hitems. unfold Playwright.parseExistingFeed.
  rewrite (parseString_model _ _ (parse_feed now items items' d Hd Hitems)).
  rewrite feed_items_root, array_push_items. cbn [channel_frame f_children array find fst].
  change (array _ "item") with (@nil xvalue). cbn [app].
  pose proof (items_of_values _ _ Hitems) as Hv.
  destruct (zip_with value_for items items') as [|v vs] eqn:Hz.
  - cbn in Hv. by injection Hv as <-.
  - rewrite Hv. done.
Qed.

End FeedRoundTrip.

(** ** The build date is character data *)

Module DateFacts.
Import Sax Feed SaxFacts.

Lemma chardata_plain w : plain w = true → chardata w = Some w.
Proof. intros Hw. unfold chardata. by rewrite (run_plain "" w Hw). Qed.

Lemma plain_nth n (l : list string) d :
  Forall (λ s, plain s = true) l → plain d = true → plain (nth n l d) = true.
Proof.
  intros Hl Hd. revert n. induction Hl as [|x l Hx Hl IH]; intros [|n]; simpl; auto.
Qed.

Lemma plain_zeros k : plain (Js.zeros k) = true.
Proof. induction k as [|k IH]; [done|]. exact IH. Qed.

Lemma plain_digit d : 0 ≤ d < 10 → plain (String (Js.digit d) "") = true.
Proof.
  intros Hd.
  assert (d = 0 ∨ d = 1 ∨ d = 2 ∨ d = 3 ∨ d = 4 ∨ d = 5 ∨ d = 6 ∨ d = 7 ∨ d = 8 ∨ d = 9)
    as Hcases by lia.
  repeat (destruct Hcases as [->|Hcases]; [reflexivity|]). by subst.
Qed.

Lemma plain_cons c s : plain (String c s) = plain (String c "") && plain s.
Proof. unfold plain. simpl. by rewrite andb_true_r. Qed.

Lemma plain_decimal_aux fuel n acc :
  plain acc = true → plain (Js.decimal_aux fuel n acc) = true.
Proof.
  revert n acc. induction fuel as [|fuel IH]; intros n acc Hacc; simpl; [done|].
  assert (plain (String (Js.digit (n `mod` 10)) acc) = true) as Hd.
  { rewrite plain_cons, Hacc, plain_digit; [done|]. by apply Z.mod_pos_bound. }
  destruct (n <? 10); [done|]. by apply IH.
Qed.

Lemma plain_padded k n : plain (Js.padded k n) = true.
Proof.
  unfold Js.padded. rewrite plain_app, plain_zeros. unfold Js.decimal.
  by rewrite plain_decimal_aux.
Qed.

Lemma plain_toUTCString t : plain (Date.toUTCString t) = true.
Proof.
  unfold Date.toUTCString. destruct (Date.civil (t `div` Date.msPerDay)) as [[y m] d].
  rewrite !plain_app, !plain_padded.
  assert (plain (Date.weekday_name ((t `div` Date.msPerDay + 4) `mod` 7)) = true) as ->.
  { apply plain_nth; [|done]. by repeat constructor. }
  assert (plain (Date.month_name m) = true) as ->.
  { apply plain_nth; [|done]. by repeat constructor. }
  by destruct (y <? 0).
Qed.

Lemma chardata_toUTCString t : chardata (Date.toUTCString t) = Some (Date.toUTCString t).
Proof. apply chardata_plain, plain_toUTCString. Qed.

End DateFacts.

(** ** C2: reading a feed back *)

Section RoundTrip.
Context `{Runtime}.
Import Feed FeedRoundTrip DateFacts.

Lemma read_back_all items :
  Forall (λ i, ∃ i', read_back i = Some i' ∧ guid i' = guid i) items →
  ∃ items', mapM read_back items = Some items' ∧ map guid items' = map guid items.
Proof.
  induction 1 as [|i items (i' & Hi & Hg) _ (items' & Hitems & Hguids)].
  - by exists [].
  - exists (i' :: items'). cbn [mapM]. rewrite Hi, Hitems. cbn. by rewrite Hg, Hguids.
Qed.

Lemma read_back_same items :
  Forall (λ i, read_back i = Some i) items → mapM read_back items = Some items.
Proof.
  induction 1 as [|i items Hi _ IH]; [done|]. cbn [mapM]. by rewrite Hi, IH.
Qed.

(** C2, amended: when every item of a feed has a title, a link and a
    publish date that are character data, a guid that is character data, not
    blank and read as it is written, and a description without the end mark
    of a CDATA section, [parseExistingFeed] reads the items back with the same
    guids in the same order; and when it reads every item as it was, writing
    them again gives the same feed up to the build date. *)
Theorem C2_feed_reads_back now items :
  Forall (λ i, ∃ i', read_back i = Some i' ∧ guid i' = guid i) items →
  map guid
    (Playwright.parseExistingFeed
       (Playwright.FileContent (Playwright.generateRSS now items))).1
  = map guid items
  ∧ (Forall (λ i, read_back i = Some i) items →
     ∀ now',
       Playwright.generateRSS now'
         (Playwright.parseExistingFeed
            (Playwright.FileContent (Playwright.generateRSS now items))).1
       = Playwright.generateRSS now' items).
Proof.
  intros Hitems. split.
  - destruct (read_back_all items Hitems) as (items' & Hr & Hg).
    by rewrite (parseExistingFeed_feed now items items' _ (chardata_toUTCString now) Hr).
  - intros Hsame now'.
    by rewrite (parseExistingFeed_feed now items items _ (chardata_toUTCString now)
                  (read_back_same items Hsame)).
Qed.

End RoundTrip.

(** C2, as stated, fails: a link with [&] is written as it is, and the feed
    is then not well-formed XML. The next run cannot read it and starts from
    an empty history. *)
Lemma C2_query_link_breaks_the_feed :
  let items := [Playwright.itemToRSSItem Examples.noon Examples.search] in
  let feed := Playwright.generateRSS Examples.noon items in
  Xml2js.parse feed = Some Xml2js.Rejected
  ∧ map guid (Playwright.parseExistingFeed (Playwright.FileContent feed)).1
    ≠ map guid items.
Proof. vm_compute. split; [reflexivity|discriminate]. Qed.

Lemma C2_witness :
  map guid
    (Playwright.parseExistingFeed
       (Playwright.FileContent
          (Playwright.generateRSS Examples.noon
             [Playwright.itemToRSSItem Examples.noon Examples.budget]))).1
  = map guid [Playwright.itemToRSSItem Examples.noon Examples.budget].
Proof.
  apply (C2_feed_reads_back Examples.noon
           [Playwright.itemToRSSItem Examples.noon Examples.budget]).
  repeat constructor. eexists. split; vm_compute; reflexivity.
Defined.

(** ** C8: a previous feed that cannot be used *)

Section BadFeed.
Context `{Runtime}.
Import Playwright.

Lemma same_existing_collected file1 file2 page clock :
  (parseExistingFeed file1).1 = (parseExistingFeed file2).1 →
  same_merge (collected file1 page clock) (collected file2 page clock).
Proof.
  intros He. unfold collected.
  destruct (parseExistingFeed file1) as [e1 l1], (parseExistingFeed file2) as [e2 l2].
  cbn [fst] in He. subst e2.
  match goal with |- same_merge (fold_left _ _ ?s1) (fold_left _ _ ?s2) =>
    assert (same_merge s1 s2) as Hs by done; revert Hs; generalize s1 s2
  end.
  generalize apiURLs. intros urls.
  induction urls as [|u urls IH]; intros s1 s2 Hs; cbn [fold_left]; [done|].
  by apply IH, same_merge_visit_url.
Qed.

End BadFeed.

(** ** C9: nothing to write *)

Lemma warnings_app (l1 l2 : list event) : warnings (l1 ++ l2) = warnings l1 ++ warnings l2.
Proof. apply omap_app. Qed.

Section Nothing.
Context `{Runtime}.
Import Playwright Feed FeedRoundTrip FeedParse FeedRead DateFacts.

Lemma generateRSS_nil_empty_feed now : empty_feed (generateRSS now []).
Proof.
  pose proof (parse_feed now [] [] _ (chardata_toUTCString now) eq_refl) as Hp.
  cbn [zip_with fold_left] in Hp.
  eexists _, _. split; [exact Hp|]. unfold root_of. split.
  - rw_child.
    set (v := Xml2js.value_of _).
    change (array _ "channel") with [v]. reflexivity.
  - rw_child. reflexivity.
Qed.

Lemma visit_url_nothing page clock st url :
  (fetchJSONWithPlaywright url (page url)).1 = None →
  newItems (visit_url page clock st url) = newItems st
  ∧ ∃ es, trace (visit_url page clock st url) = trace st ++ es ∧ skipping url ∈ warnings es.
Proof.
  intros Hf. unfold visit_url.
  destruct (fetchJSONWithPlaywright url (page url)) as [items es]. cbn [fst] in Hf. subst.
  split; [done|]. cbn [log trace]. exists (es ++ [Console Warn (skipping url)]).
  split; [by rewrite app_assoc|]. rewrite warnings_app. apply elem_of_app. right. left.
Qed.

Lemma visit_urls_nothing page clock urls st :
  (∀ url, (fetchJSONWithPlaywright url (page url)).1 = None) →
  newItems (fold_left (visit_url page clock) urls st) = newItems st
  ∧ ∃ es, trace (fold_left (visit_url page clock) urls st) = trace st ++ es
          ∧ ∀ url, url ∈ urls → skipping url ∈ warnings es.
Proof.
  intros Hf. revert st. induction urls as [|u urls IH]; intros st; cbn [fold_left].
  - split; [done|]. exists []. split; [by rewrite app_nil_r|]. by intros url ?%not_elem_of_nil.
  - destruct (visit_url_nothing page clock st u (Hf u)) as (Hn & es1 & Ht1 & Hw1).
    destruct (IH (visit_url page clock st u)) as (Hn' & es2 & Ht2 & Hw2).
    split; [by rewrite Hn', Hn|]. exists (es1 ++ es2).
    split; [by rewrite Ht2, Ht1, app_assoc|].
    intros url [->|Hin]%elem_of_cons; rewrite warnings_app; apply elem_of_app; auto.
Qed.

(** C9: when there are no previous items and no endpoint gives a post, both
    variants still write [feed.xml], as a well-formed feed without items, and
    log a warning: the Playwright variant one per endpoint it skips, the
    direct variant that no articles were fetched. *)
Theorem C9_empty_run_writes_empty_feed file page clock net now :
  (parseExistingFeed file).1 = [] →
  (∀ url, (fetchJSONWithPlaywright url (page url)).1 = None) →
  (Direct.fetchAll net).1 = [] →
  (written (main file page clock)
   = [("feed.xml", generateRSS (clock (ticks (collected file page clock))) [])]
   ∧ empty_feed (generateRSS (clock (ticks (collected file page clock))) [])
   ∧ ∀ url, url ∈ apiURLs → skipping url ∈ warnings (main file page clock))
  ∧ (written (Direct.main net now) = [("feed.xml", Direct.generateRSS now [])]
     ∧ empty_feed (Direct.generateRSS now [])
     ∧ ["No articles fetched"] ∈ warnings (Direct.main net now)).
Proof.
  intros He Hf Hd. split; split.
  - rewrite playwright_main_writes. unfold finalItems, collected.
    destruct (parseExistingFeed file) as [existing es]. cbn [fst] in *. subst existing.
    match goal with |- context [fold_left _ _ ?s] =>
      destruct (visit_urls_nothing page clock apiURLs s Hf) as (Hn & _) end.
    rewrite Hn. reflexivity.
  - split; [apply generateRSS_nil_empty_feed|].
    intros url Hurl. unfold main, collected.
    destruct (parseExistingFeed file) as [existing es].
    match goal with |- context [fold_left _ _ ?s] =>
      destruct (visit_urls_nothing page clock apiURLs s Hf) as (_ & es' & Ht & Hw) end.
    rewrite Ht, !warnings_app. apply elem_of_app. left. apply elem_of_app. right. by apply Hw.
  - rewrite direct_main_writes, Hd. reflexivity.
  - split; [rewrite direct_generateRSS; apply generateRSS_nil_empty_feed|].
    unfold Direct.main. destruct (Direct.fetchAll net) as [items log]. cbn [fst] in Hd. subst.
    rewrite !warnings_app. apply elem_of_app. right. apply elem_of_app. left. left.
Qed.

End Nothing.

Lemma C9_witness :
  written (Playwright.main Playwright.NoFile Examples.page_down Examples.clock)
  = [("feed.xml",
      Playwright.generateRSS
        (Examples.clock
           (Playwright.ticks
              (Playwright.collected Playwright.NoFile Examples.page_down Examples.clock)))
        [])]
  ∧ written (Direct.main Examples.net_down Examples.noon)
    = [("feed.xml", Direct.generateRSS Examples.noon [])].
Proof.
  assert ((Direct.fetchAll Examples.net_down).1 = []) as Hnet.
  { vm_compute. reflexivity. }
  destruct (C9_empty_run_writes_empty_feed Playwright.NoFile Examples.page_down
              Examples.clock Examples.net_down Examples.noon
              eq_refl (λ url, eq_refl) Hnet) as ((Hp & _) & Hd & _).
  exact (conj Hp Hd).
Defined.

(** * Further properties of the two scripts *)

(** ** The title: escaped when written, decoded when read *)

Section Escape.
Import Sax SaxFacts.

Lemma replace_char_app c r a b :
  Js.replace_char c r (a +:+ b) = Js.replace_char c r a +:+ Js.replace_char c r b.
Proof.
  induction a as [|x a IH]; rewrite ?append_cons, ?append_nil_l; simpl; [done|].
  destruct (Ascii.eqb x c); by rewrite IH, ?append_cons, ?append_assoc.
Qed.

Lemma run_escaped (s d : string) :
  run (TEXT d)
    (Js.replace_char ">" "&gt;" (Js.replace_char "<" "&lt;" (Js.replace_char "&" "&amp;" s)))
  = (TEXT (d +:+ s), []).
Proof.
  revert d. induction s as [|a s IH]; intros d.
  - simpl. by rewrite append_nil_r.
  - cbn [Js.replace_char].
    destruct (Ascii.eqb_spec a "&") as [->|Hamp].
    { rewrite !replace_char_app, run_app.
      replace (run (TEXT d) _) with (TEXT (d +:+ "&"), @nil sax_event) by reflexivity.
      rewrite IH. by rewrite append_assoc. }
    cbn [Js.replace_char]. destruct (Ascii.eqb_spec a "<") as [->|Hlt].
    { rewrite !replace_char_app, run_app.
      replace (run (TEXT d) _) with (TEXT (d +:+ "<"), @nil sax_event) by reflexivity.
      rewrite IH. by rewrite append_assoc. }
    cbn [Js.replace_char]. destruct (Ascii.eqb_spec a ">") as [->|Hgt].
    { rewrite run_app.
      replace (run (TEXT d) _) with (TEXT (d +:+ ">"), @nil sax_event) by reflexivity.
      rewrite IH. by rewrite append_assoc. }
    cbn [run]. unfold step.
    apply Ascii.eqb_neq in Hamp, Hlt. rewrite Hlt, Hamp.
    rewrite IH. by rewrite snoc_append.
Qed.

(** X1: Whatever the title of a post, the XML parser reads the escaped title
    the scripts write as character data, and decodes it to the title itself
    (or to the placeholder of a post without title). *)
Theorem escaped_title_is_read_as_the_title (t : option string) :
  chardata (escape_title t) = Some (Js.or_else t "No title").
Proof.
  unfold chardata, escape_title. rewrite run_escaped. by rewrite append_nil_l.
Qed.

End Escape.

(** ** No field of an item is empty *)

Lemma length_append (a b : string) :
  String.length (a +:+ b) = (String.length a + String.length b)%nat.
Proof. induction a as [|c a IH]; rewrite ?append_cons, ?append_nil_l; simpl; lia. Qed.

Lemma or_else_not_empty o d : d ≠ "" → Js.or_else o d ≠ "".
Proof.
  intros Hd. unfold Js.or_else. destruct o as [s|]; [|done].
  destruct (String.eqb_spec s ""); done.
Qed.

Lemma escape_title_not_empty t : escape_title t ≠ "".
Proof.
  unfold escape_title.
  pose proof (or_else_not_empty t "No title" ltac:(done)) as Hne.
  destruct (Js.or_else t "No title") as [|a s]; [done|]. clear Hne.
  cbn [Js.replace_char]. destruct (Ascii.eqb a "&"); [rewrite !replace_char_app; done|].
  cbn [Js.replace_char]. destruct (Ascii.eqb a "<"); [rewrite !replace_char_app; done|].
  cbn [Js.replace_char]. destruct (Ascii.eqb a ">"); done.
Qed.

Lemma toUTCString_not_empty t : Date.toUTCString t ≠ "".
Proof.
  unfold Date.toUTCString. destruct (Date.civil _) as [[y m] d].
  intros Heq. apply (f_equal String.length) in Heq.
  rewrite !length_append in Heq. simpl in Heq. lia.
Qed.

Lemma startsWith_append p s : Js.startsWith p (p +:+ s) = true.
Proof.
  unfold Js.startsWith.
  assert (Js.strip_prefix p (p +:+ s) = Some s) as ->; [|done].
  induction p as [|c p IH]; [done|]. rewrite append_cons. simpl. by rewrite Ascii.eqb_refl.
Qed.

Section Fields.
Context `{Runtime}.

Lemma pub_date_not_empty now fpa : pub_date (Date.toUTCString now) fpa ≠ "".
Proof.
  unfold pub_date. destruct fpa as [s|]; [|apply toUTCString_not_empty].
  destruct (String.eqb s ""); [apply toUTCString_not_empty|].
  destruct (Date_parse s); [apply toUTCString_not_empty|done].
Qed.

(** X2: Whatever properties a post lacks, the item made of it has a title, a
    link that starts with the base URL, a description and a publish date,
    none of them empty, in both variants. *)
Theorem item_fields_are_never_empty (now : Z) (post : RawPost) :
  (title (Playwright.itemToRSSItem now post) ≠ ""
   ∧ description (Playwright.itemToRSSItem now post) ≠ ""
   ∧ pubDate (Playwright.itemToRSSItem now post) ≠ ""
   ∧ Js.startsWith baseURL (link (Playwright.itemToRSSItem now post)) = true)
  ∧ (title (Direct.rendered (Date.toUTCString now) post) ≠ ""
     ∧ description (Direct.rendered (Date.toUTCString now) post) ≠ ""
     ∧ pubDate (Direct.rendered (Date.toUTCString now) post) ≠ ""
     ∧ Js.startsWith baseURL (link (Direct.rendered (Date.toUTCString now) post)) = true).
Proof.
  cbn [title description pubDate link Playwright.itemToRSSItem Direct.rendered].
  assert (describe post ≠ "") as Hd.
  { unfold describe. apply or_else_not_empty. apply or_else_not_empty. done. }
  repeat split; try done; try apply escape_title_not_empty; try apply pub_date_not_empty;
    apply startsWith_append.
Qed.

End Fields.
(** ** What the merge of [generate-rss.js] adds *)

Section Added.
Context `{Runtime}.
Import Playwright.

Lemma additions_log existing st es : additions existing st → additions existing (log st es).
Proof. intros []. by split. Qed.

Lemma additions_visit_post clock existing st post :
  additions existing st → additions existing (visit_post clock st post).
Proof.
  intros [Hg Hl Hng Hnl Hf]. unfold visit_post.
  set (x := itemToRSSItem (clock (ticks st)) post).
  destruct (bool_decide (guid x ∈ existingGuids st)) eqn:Eg; cbn [negb andb];
    [by split; cbn|].
  destruct (bool_decide (link x ∈ existingLinks st)) eqn:El; cbn [negb andb];
    [by split; cbn|].
  apply bool_decide_eq_false in Eg, El.
  assert (guid x ∉ map guid (newItems st ++ existing)) as Eg' by (by rewrite <- Hg).
  assert (link x ∉ map link (newItems st ++ existing)) as El' by (by rewrite <- Hl).
  rewrite map_app, elem_of_app in Eg', El'.
  split; cbn [existingGuids existingLinks newItems].
  - intros g. rewrite elem_of_union, elem_of_singleton, Hg, !map_app, !elem_of_app.
    cbn [map]. rewrite list_elem_of_singleton. tauto.
  - intros l. rewrite elem_of_union, elem_of_singleton, Hl, !map_app, !elem_of_app.
    cbn [map]. rewrite list_elem_of_singleton. tauto.
  - rewrite map_app. apply NoDup_app. split; [done|]. split; [|apply NoDup_singleton].
    intros g Hin ->%list_elem_of_singleton. tauto.
  - rewrite map_app. apply NoDup_app. split; [done|]. split; [|apply NoDup_singleton].
    intros l Hin ->%list_elem_of_singleton. tauto.
  - apply Forall_app. split; [done|]. apply Forall_singleton. tauto.
Qed.

Lemma additions_visit_url page clock existing st url :
  additions existing st → additions existing (visit_url page clock st url).
Proof.
  intros Hst. unfold visit_url.
  destruct (fetchJSONWithPlaywright url (page url)) as [[items|] es].
  - apply additions_log. generalize (log st es) (additions_log _ _ es Hst).
    induction items as [|p items IH]; intros st' Hst'; simpl; [done|].
    by apply IH, additions_visit_post.
  - by do 2 apply additions_log.
Qed.

Lemma additions_collected file page clock :
  additions (parseExistingFeed file).1 (collected file page clock).
Proof.
  unfold collected. destruct (parseExistingFeed file) as [existing es]. cbn [fst].
  match goal with |- additions _ (fold_left _ _ ?s) =>
    assert (additions existing s) as Hs; [|revert Hs; generalize s] end.
  { split; cbn [existingGuids existingLinks newItems app]; [| |constructor..].
    - intros g'. by rewrite elem_of_list_to_set.
    - intros l'. by rewrite elem_of_list_to_set. }
  generalize apiURLs. intros urls. induction urls as [|u urls IH]; intros st Hst; simpl; [done|].
  by apply IH, additions_visit_url.
Qed.

(** X3: Whatever the previous feed holds, the items a run adds differ from one
    another and from every previous item, in guid and in link. *)
Theorem added_items_are_new file page clock :
  NoDup (map guid (newItems (collected file page clock)))
  ∧ NoDup (map link (newItems (collected file page clock)))
  ∧ Forall (λ n, (guid n ∉ map guid (parseExistingFeed file).1)
                 ∧ (link n ∉ map link (parseExistingFeed file).1))
      (newItems (collected file page clock)).
Proof. by destruct (additions_collected file page clock). Qed.

(** X4: A post at the link of an item of the previous feed is not added,
    whatever its content: a change to an article is not taken over. *)
Theorem post_at_known_link_is_not_added file page clock (X : FeedItem) (post : RawPost) :
  X ∈ (parseExistingFeed file).1 →
  link X = article_url (post_url_path post) →
  ∀ now, itemToRSSItem now post ∉ newItems (collected file page clock).
Proof.
  intros HX Hlink now Hin.
  destruct (additions_collected file page clock) as [_ _ _ _ Hf].
  rewrite Forall_forall in Hf. destruct (Hf _ Hin) as [_ Hl]. apply Hl.
  cbn [itemToRSSItem link]. rewrite <- Hlink. apply list_elem_of_fmap. eauto.
Qed.

End Added.
Section Covered.
Context `{Runtime}.
Import Playwright.

Lemma grows_refl st : grows st st.
Proof. by split. Qed.

Lemma grows_trans s1 s2 s3 : grows s1 s2 → grows s2 s3 → grows s1 s3.
Proof. intros [? ?] [? ?]. split; set_solver. Qed.

Lemma grows_log st es : grows st (log st es).
Proof. by split. Qed.

Lemma grows_visit_post clock st post : grows st (visit_post clock st post).
Proof. unfold visit_post. case_match; split; cbn; set_solver. Qed.

Lemma grows_visit_posts clock posts st : grows st (fold_left (visit_post clock) posts st).
Proof.
  revert st. induction posts as [|p posts IH]; intros st; simpl; [apply grows_refl|].
  eapply grows_trans; [apply grows_visit_post|apply IH].
Qed.

Lemma grows_visit_url page clock st url : grows st (visit_url page clock st url).
Proof.
  unfold visit_url. destruct (fetchJSONWithPlaywright url (page url)) as [[items|] es].
  - eapply grows_trans; [apply (grows_log st es)|].
    eapply grows_trans; [apply grows_visit_posts|apply grows_log].
  - eapply grows_trans; apply grows_log.
Qed.

Lemma grows_visit_urls page clock urls st :
  grows st (fold_left (visit_url page clock) urls st).
Proof.
  revert st. induction urls as [|u urls IH]; intros st; simpl; [apply grows_refl|].
  eapply grows_trans; [apply grows_visit_url|apply IH].
Qed.

Lemma seen_grows s1 s2 post : grows s1 s2 → seen s1 post → seen s2 post.
Proof. intros [Hg Hl] [Hs|Hs]; [left|right]; set_solver. Qed.

Lemma seen_visit_post clock st post : seen (visit_post clock st post) post.
Proof.
  unfold visit_post, seen. cbn [itemToRSSItem guid link].
  destruct (decide (generateGUID post ∈ existingGuids st)) as [Hg|Hg].
  { rewrite (bool_decide_eq_true_2 _ Hg). cbn. by left. }
  rewrite (bool_decide_eq_false_2 _ Hg).
  destruct (decide (article_url (post_url_path post) ∈ existingLinks st)) as [Hl|Hl].
  { rewrite (bool_decide_eq_true_2 _ Hl). cbn. by right. }
  rewrite (bool_decide_eq_false_2 _ Hl). cbn. left. set_solver.
Qed.

Lemma seen_visit_posts clock posts st post :
  post ∈ posts → seen (fold_left (visit_post clock) posts st) post.
Proof.
  revert st. induction posts as [|p posts IH]; intros st Hin; [by apply not_elem_of_nil in Hin|].
  apply elem_of_cons in Hin as [->|Hin]; simpl; [|by apply IH].
  eapply seen_grows; [apply grows_visit_posts|apply seen_visit_post].
Qed.

Lemma seen_visit_url page clock st url posts post :
  (fetchJSONWithPlaywright url (page url)).1 = Some posts → post ∈ posts →
  seen (visit_url page clock st url) post.
Proof.
  intros Hf Hin. unfold visit_url.
  destruct (fetchJSONWithPlaywright url (page url)) as [items es]. cbn [fst] in Hf. subst items.
  eapply seen_grows; [apply grows_log|]. by apply seen_visit_posts.
Qed.

Lemma seen_visit_urls page clock urls st url posts post :
  url ∈ urls → (fetchJSONWithPlaywright url (page url)).1 = Some posts → post ∈ posts →
  seen (fold_left (visit_url page clock) urls st) post.
Proof.
  intros Hu Hf Hin. revert st.
  induction urls as [|u urls IH]; intros st; [by apply not_elem_of_nil in Hu|].
  simpl. apply elem_of_cons in Hu as [<-|Hu]; [|by apply IH].
  eapply seen_grows; [apply grows_visit_urls|]. by eapply seen_visit_url.
Qed.

Lemma represented_collected file page clock url posts post :
  url ∈ apiURLs →
  (fetchJSONWithPlaywright url (page url)).1 = Some posts →
  post ∈ posts →
  represented (newItems (collected file page clock) ++ (parseExistingFeed file).1) post.
Proof.
  intros Hu Hf Hin.
  destruct (additions_collected file page clock) as [Hg Hl _ _ _].
  assert (seen (collected file page clock) post) as [Hs|Hs].
  { unfold collected. destruct (parseExistingFeed file) as [existing es].
    by eapply seen_visit_urls. }
  - apply Hg, list_elem_of_fmap in Hs as (i & Hi & Hin'). exists i. split; [done|]. by left.
  - apply Hl, list_elem_of_fmap in Hs as (i & Hi & Hin'). exists i. split; [done|]. by right.
Qed.

(** X5: Every post an endpoint returns is in the merged list afterwards, by its
    guid or by its link: as the item made of it, or as an item that was
    there before it. *)
Theorem fetched_posts_are_represented file page clock url posts post :
  url ∈ apiURLs →
  (fetchJSONWithPlaywright url (page url)).1 = Some posts →
  post ∈ posts →
  represented (newItems (collected file page clock) ++ (parseExistingFeed file).1) post.
Proof. apply represented_collected. Qed.

Lemma fetched_item_visit_post page clock urls url posts post st :
  url ∈ urls → (fetchJSONWithPlaywright url (page url)).1 = Some posts → post ∈ posts →
  Forall (fetched_item page clock urls) (newItems st) →
  Forall (fetched_item page clock urls) (newItems (visit_post clock st post)).
Proof.
  intros Hu Hf Hin Hst. unfold visit_post. case_match; cbn [newItems]; [|done].
  apply Forall_app. split; [done|]. apply Forall_singleton.
  by exists url, posts, post, (ticks st).
Qed.

Lemma fetched_item_visit_posts page clock urls url posts ps st :
  url ∈ urls → (fetchJSONWithPlaywright url (page url)).1 = Some posts →
  (∀ p, p ∈ ps → p ∈ posts) →
  Forall (fetched_item page clock urls) (newItems st) →
  Forall (fetched_item page clock urls) (newItems (fold_left (visit_post clock) ps st)).
Proof.
  intros Hu Hf. revert st. induction ps as [|p ps IH]; intros st Hsub Hst; simpl; [done|].
  apply IH; [intros q Hq; apply Hsub; by right|].
  eapply fetched_item_visit_post; [done..|apply Hsub; by left|done].
Qed.

Lemma fetched_item_visit_url page clock urls url st :
  url ∈ urls →
  Forall (fetched_item page clock urls) (newItems st) →
  Forall (fetched_item page clock urls) (newItems (visit_url page clock st url)).
Proof.
  intros Hu Hst. unfold visit_url.
  destruct (fetchJSONWithPlaywright url (page url)) as [[items|] es] eqn:Hf; [|done].
  cbn [log newItems].
  apply (fetched_item_visit_posts page clock urls url items); [done| |done..].
  by rewrite Hf.
Qed.

Lemma fetched_item_visit_urls page clock urls us st :
  (∀ u, u ∈ us → u ∈ urls) →
  Forall (fetched_item page clock urls) (newItems st) →
  Forall (fetched_item page clock urls) (newItems (fold_left (visit_url page clock) us st)).
Proof.
  revert st. induction us as [|u us IH]; intros st Hsub Hst; simpl; [done|].
  apply IH; [intros v Hv; apply Hsub; by right|].
  apply fetched_item_visit_url; [apply Hsub; by left|done].
Qed.

Lemma fetched_item_collected file page clock :
  Forall (fetched_item page clock apiURLs) (newItems (collected file page clock)).
Proof.
  unfold collected. destruct (parseExistingFeed file) as [existing es].
  apply fetched_item_visit_urls; [done|constructor].
Qed.

(** X6: The feed that is written holds nothing but items of the previous feed
    and items made of posts an endpoint returned in this run. *)
Theorem feed_holds_old_items_and_fetched_posts file page clock :
  Forall (λ i, i ∈ (parseExistingFeed file).1 ∨ fetched_item page clock apiURLs i)
    (finalItems file page clock).
Proof.
  unfold finalItems. apply Forall_take.
  rewrite sort_perm. apply Forall_app. split.
  - eapply Forall_impl; [apply fetched_item_collected|]. intros i Hi. by right.
  - apply Forall_forall. intros i Hi. by left.
Qed.

End Covered.

(** ** What the sort and the cut keep *)

Section Stable.
Context {A : Type} (cmp : A → A → option Z) (P : A → Prop) `{∀ x, Decision (P x)}.

(** Two elements of [P] are never swapped. *)
Hypothesis cmp_P : ∀ x y, P x → P y → ¬ 0 < Js.order (cmp x y).

Lemma insert_filter x l : filter P (Js.insert cmp x l) = filter P (x :: l).
Proof.
  induction l as [|y l IH]; [done|]. cbn [Js.insert].
  destruct (Z.ltb_spec 0 (Js.order (cmp x y))) as [Hlt|Hge]; [|done].
  rewrite (filter_cons _ y), IH, !filter_cons.
  destruct (decide (P x)) as [Hx|Hx], (decide (P y)) as [Hy|Hy]; try done.
  by destruct (cmp_P x y Hx Hy).
Qed.

Lemma sort_filter l : filter P (Js.sort cmp l) = filter P l.
Proof.
  induction l as [|x l IH]; [done|]. cbn [Js.sort fold_right].
  fold (Js.sort cmp l). by rewrite insert_filter, !filter_cons, IH.
Qed.

End Stable.

Lemma sorted_app_inv {A} (R : A → A → Prop) (l1 l2 : list A) :
  StronglySorted R (l1 ++ l2) → Forall (λ a, Forall (R a) l2) l1.
Proof.
  induction l1 as [|x l1 IH]; intros Hs; [constructor|].
  apply StronglySorted_inv in Hs as [Hs Hx]. constructor; [|by apply IH].
  by apply Forall_app in Hx as [_ ?].
Qed.

Lemma filter_take_prefix {A} (P : A → Prop) `{∀ x, Decision (P x)} n (l : list A) :
  filter P (take n l) `prefix_of` filter P l.
Proof.
  exists (filter P (drop n l)). by rewrite <- filter_app, take_drop.
Qed.

Section Kept.
Context `{Runtime}.
Import Playwright.

Lemma finalItems_sortedItems file page clock :
  finalItems file page clock = take 500 (sortedItems file page clock).
Proof. reflexivity. Qed.

(** X7: The feed of the Playwright variant holds all new and all previous
    items, or 500 if there are more. *)
Theorem final_count_is_capped_sum file page clock :
  length (finalItems file page clock)
  = (500 `min` (length (newItems (collected file page clock))
                + length (parseExistingFeed file).1))%nat.
Proof.
  rewrite finalItems_sortedItems, length_take. unfold sortedItems.
  by rewrite sort_length, length_app.
Qed.

(** X8: When new and previous items together are at most 500, none is left
    out: the feed holds each of them, as often as the merged list does. *)
Theorem nothing_is_dropped_up_to_500 file page clock :
  (length (newItems (collected file page clock)) + length (parseExistingFeed file).1 ≤ 500)%nat →
  finalItems file page clock
  ≡ₚ newItems (collected file page clock) ++ (parseExistingFeed file).1.
Proof.
  intros Hle. rewrite finalItems_sortedItems. unfold sortedItems.
  rewrite take_ge; [apply sort_perm|]. by rewrite sort_length, length_app.
Qed.

(** X9: When all dates are valid, what is cut off is not newer than anything
    that is kept, in both variants. *)
Theorem cut_drops_the_oldest file page clock net :
  Forall (λ i, is_Some (date_of i))
    (newItems (collected file page clock) ++ (parseExistingFeed file).1) →
  Forall (λ p, is_Some (Direct.published p)) (Direct.fetchAll net).1 →
  Forall (λ kept, Forall (not_older date_of kept) (drop 500 (sortedItems file page clock)))
    (finalItems file page clock)
  ∧ Forall (λ kept, Forall (not_older Direct.published kept) (drop 500 (Direct.fetchAll net).1))
      (take 500 (Direct.fetchAll net).1).
Proof.
  intros Hp Hd. split.
  - rewrite finalItems_sortedItems. apply sorted_app_inv. rewrite take_drop.
    apply (sort_sorted date_of), Hp.
  - apply sorted_app_inv. rewrite take_drop. unfold Direct.fetchAll in *.
    destruct (fold_left (Direct.load net) apiURLs ([], [])) as [allItems log]. cbn [fst] in *.
    apply (sort_sorted Direct.published). by rewrite sort_perm in Hd.
Qed.

Lemma same_date_not_swapped t (x y : FeedItem) :
  date_of x = Some t → date_of y = Some t → ¬ 0 < Js.order (newest_first x y).
Proof.
  unfold date_of, newest_first. intros -> ->. simpl. lia.
Qed.

(** X10: When all dates are valid, the sort is stable: the items of one date
    stand in the feed as in the merged list, the new ones first, in the order
    they were fetched, then the previous ones in the order of the previous
    feed. *)
Theorem items_of_one_date_keep_their_order file page clock (t : Z) :
  Forall (λ i, is_Some (date_of i))
    (newItems (collected file page clock) ++ (parseExistingFeed file).1) →
  dated t (sortedItems file page clock)
  = dated t (newItems (collected file page clock)) ++ dated t (parseExistingFeed file).1
  ∧ dated t (finalItems file page clock) `prefix_of` dated t (sortedItems file page clock).
Proof.
  intros _. split.
  - unfold dated, sortedItems. rewrite sort_filter; [apply filter_app|].
    apply same_date_not_swapped.
  - rewrite finalItems_sortedItems. apply filter_take_prefix.
Qed.

End Kept.

(** ** The waits of the Playwright variant *)

Section Waits.
Context `{Runtime}.
Import Playwright.

Lemma parseExistingFeed_sleeps file : sleeps (parseExistingFeed file).2 = [].
Proof. unfold parseExistingFeed. repeat case_match; reflexivity. Qed.

Lemma visit_url_sleeps page clock st url :
  sleeps (trace (visit_url page clock st url))
  = sleeps (trace st) ++ map (λ _, 1000) (answering page [url]).
Proof.
  unfold visit_url, answering. rewrite filter_cons, filter_nil.
  destruct (fetchJSONWithPlaywright_requests url (page url)) as [_ Hs].
  destruct (fetchJSONWithPlaywright url (page url)) as [[items|] es];
    cbn [fst snd] in *; cbn [log trace].
  - rewrite decide_True by eauto. rewrite visit_posts_trace. cbn [log trace].
    by rewrite !sleeps_app, Hs, app_nil_r.
  - rewrite decide_False by (by intros [? ?]).
    by rewrite !sleeps_app, Hs, !app_nil_r.
Qed.

Lemma visit_urls_sleeps page clock urls st :
  sleeps (trace (fold_left (visit_url page clock) urls st))
  = sleeps (trace st) ++ map (λ _, 1000) (answering page urls).
Proof.
  revert st. induction urls as [|u urls IH]; intros st; simpl.
  { by rewrite app_nil_r. }
  rewrite IH, visit_url_sleeps, <- app_assoc, <- map_app. do 2 f_equal.
  unfold answering. by rewrite <- filter_app.
Qed.

(** X11: The Playwright variant waits one second after each endpoint whose
    answer holds posts, and not after an endpoint it skips. *)
Theorem one_wait_per_answering_endpoint file page clock :
  sleeps (main file page clock) = map (λ _, 1000) (answering page apiURLs).
Proof.
  unfold main. rewrite sleeps_app. cbn [sleeps omap]. rewrite app_nil_r.
  unfold collected. pose proof (parseExistingFeed_sleeps file) as Hp.
  destruct (parseExistingFeed file) as [existing es]. cbn [snd] in Hp.
  rewrite visit_urls_sleeps. cbn [trace]. by rewrite Hp.
Qed.

End Waits.

(** ** When [fetchJSONWithPlaywright] returns posts *)

Section Answers.
Import Playwright.

(** X12: [fetchJSONWithPlaywright] returns posts exactly when the body starts
    with a brace (after white space) and is JSON for an object that holds at
    least one post; it never returns an empty list. *)
Theorem posts_only_from_a_json_object_with_posts url r posts :
  (fetchJSONWithPlaywright url r).1 = Some posts
  ↔ posts ≠ []
    ∧ ∃ text data, r = EvaluateResolves text (JsonValue (JsonObject data))
                   ∧ Js.startsWith "{" (Js.trimStart text) = true
                   ∧ posts_of data = posts.
Proof.
  unfold fetchJSONWithPlaywright. split.
  - destruct r as [|text [m|[| |data]]]; try done;
      destruct (Js.startsWith "{" (Js.trimStart text)) eqn:Hb; try done.
    cbn [negb]. destruct (posts_of data) as [|p ps] eqn:Hp; [done|].
    cbn [length Nat.eqb fst]. intros [= <-]. split; [done|]. by exists text, data.
  - intros (Hne & text & data & -> & Hb & Hp). rewrite Hb, Hp. cbn [negb].
    destruct posts as [|p ps]; done.
Qed.

End Answers.

(** ** The two variants write the same items *)

Section Alike.
Context `{Runtime}.

Lemma rendered_itemToRSSItem now post :
  Js.truthy (post_excerpt post) = true ∨ Js.truthy (post_summary post) = false →
  Direct.rendered (Date.toUTCString now) post = Playwright.itemToRSSItem now post.
Proof.
  intros Hp. unfold Direct.rendered, Playwright.itemToRSSItem. f_equal.
  unfold Direct.generateGUID, Playwright.generateGUID. do 3 f_equal.
  unfold Js.truthy, Js.or_else in *.
  destruct (post_excerpt post) as [e|], (post_summary post) as [s|];
    repeat case_match; simplify_eq/=; try done; by destruct Hp.
Qed.

(** X13: For posts that have an excerpt, or no summary either, the direct
    variant writes what the Playwright variant writes for the items of those
    posts: the same title, link, description, date and guid. *)
Theorem variants_write_the_same_items now posts :
  Forall (λ p, Js.truthy (post_excerpt p) = true ∨ Js.truthy (post_summary p) = false)
    posts →
  Direct.generateRSS now posts
  = Playwright.generateRSS now (map (Playwright.itemToRSSItem now) posts).
Proof.
  intros Hp. rewrite direct_generateRSS. f_equal.
  induction Hp as [|p ps Hp _ IH]; [done|]. cbn [map]. by rewrite IH, rendered_itemToRSSItem.
Qed.

End Alike.

(** ** The direct variant: how much a run asks and waits *)

Section Budget.

Lemma load_sleeps net acc u :
  sleeps (Direct.load net acc u).2
  = sleeps acc.2 ++ sleeps (Direct.fetchJsonSafe u (net u)).2.
Proof.
  destruct acc as [allItems log]. unfold Direct.load.
  destruct (Direct.fetchJsonSafe u (net u)) as [r es]. cbn [fst snd].
  destruct r as [[| |data]|[err|]]; cbn [fst snd]; rewrite ?sleeps_app; try done;
    cbn [sleeps omap]; rewrite ?app_nil_r; try done.
  destruct (Direct.snippet err); cbn [omap app]; by rewrite app_nil_r.
Qed.

Lemma load_fold_sleeps net urls acc :
  sleeps (fold_left (Direct.load net) urls acc).2
  = sleeps acc.2 ++ concat (map (λ u, sleeps (Direct.fetchJsonSafe u (net u)).2) urls).
Proof.
  revert acc. induction urls as [|u urls IH]; intros acc; cbn [fold_left map concat].
  { by rewrite app_nil_r. }
  by rewrite IH, load_sleeps, <- app_assoc.
Qed.

Context `{Runtime}.

Lemma fetchAll_sleeps net :
  sleeps (Direct.fetchAll net).2
  = concat (map (λ u, sleeps (Direct.fetchJsonSafe u (net u)).2) apiURLs).
Proof.
  unfold Direct.fetchAll. pose proof (load_fold_sleeps net apiURLs ([], [])) as Hs.
  by destruct (fold_left (Direct.load net) apiURLs ([], [])) as [allItems log].
Qed.

Lemma direct_main_asks net now :
  requests (Direct.main net now) = requests (Direct.fetchAll net).2
  ∧ sleeps (Direct.main net now) = sleeps (Direct.fetchAll net).2.
Proof.
  unfold Direct.main. destruct (Direct.fetchAll net) as [items log]. cbn [snd].
  rewrite !requests_app, !sleeps_app.
  destruct (length items =? 0)%nat; cbn [requests sleeps omap]; by rewrite !app_nil_r.
Qed.

Lemma attempts_trace_asks url k :
  (1 ≤ k ≤ 3)%nat →
  requests (attempts_trace url k) = replicate k (url, Some 10000)
  ∧ sleeps (attempts_trace url k) = take (k - 1) [400; 800].
Proof.
  intros Hk. assert (k = 1 ∨ k = 2 ∨ k = 3)%nat as [-> | [-> | ->]] by lia; by split.
Qed.

Lemma total_app a b : total (a ++ b) = total a + total b.
Proof. unfold total. induction a as [|x a IH]; simpl; lia. Qed.

Lemma total_waits k : (1 ≤ k ≤ 3)%nat → total (take (k - 1) [400; 800]) ≤ 1200.
Proof.
  intros Hk. assert (k = 1 ∨ k = 2 ∨ k = 3)%nat as [-> | [-> | ->]] by lia; by vm_compute.
Qed.

Lemma endpoints_bounded (net : string → nat → Direct.attempt) (urls : list string) :
  (length urls
   ≤ length (concat (map (λ u, requests (Direct.fetchJsonSafe u (net u)).2) urls))
   ≤ 3 * length urls)%nat
  ∧ Forall (λ r, r.1 ∈ urls ∧ r.2 = Some 10000)
      (concat (map (λ u, requests (Direct.fetchJsonSafe u (net u)).2) urls))
  ∧ Forall (λ ms, ms = 400 ∨ ms = 800)
      (concat (map (λ u, sleeps (Direct.fetchJsonSafe u (net u)).2) urls))
  ∧ total (concat (map (λ u, sleeps (Direct.fetchJsonSafe u (net u)).2) urls))
    ≤ 1200 * Z.of_nat (length urls).
Proof.
  induction urls as [|u urls (IHn & IHr & IHs & IHt)]; cbn [map concat length].
  { repeat split; try constructor; simpl; lia. }
  destruct (fetchJsonSafe_spec u (net u)) as (k & Hk & -> & _).
  destruct (attempts_trace_asks u k Hk) as [-> ->].
  split; [rewrite length_app, length_replicate; lia|]. split; [|split].
  - apply Forall_app. split.
    + apply Forall_replicate. split; [apply list_elem_of_here|done].
    + eapply Forall_impl; [exact IHr|]. intros r [Hr ?]. split; [by apply list_elem_of_further|done].
  - apply Forall_app. split; [|done]. apply Forall_take.
    apply Forall_cons_2; [by left|]. apply Forall_cons_2; [by right|]. constructor.
  - rewrite total_app. pose proof (total_waits k Hk). lia.
Qed.

(** X14: A run of the direct variant asks each endpoint at least once and at most
    3 times, so between 2 and 6 times in all, each time with a time-out of
    10 s; its waits are of 400 ms and 800 ms and add up to at most 2.4 s. *)
Theorem direct_run_is_bounded net now :
  (2 ≤ length (requests (Direct.main net now)) ≤ 6)%nat
  ∧ Forall (λ r, r.1 ∈ apiURLs ∧ r.2 = Some 10000) (requests (Direct.main net now))
  ∧ Forall (λ ms, ms = 400 ∨ ms = 800) (sleeps (Direct.main net now))
  ∧ total (sleeps (Direct.main net now)) ≤ 2400.
Proof.
  destruct (direct_main_asks net now) as [-> ->].
  destruct (fetchAll_endpoints net) as [_ ->]. rewrite fetchAll_sleeps.
  apply (endpoints_bounded net apiURLs).
Qed.

End Budget.

(** ** The direct variant and the status of an answer *)

Section Status.

Lemma attempt_result_same a b :
  same_answer a b →
  match Direct.attempt_result a, Direct.attempt_result b with
  | inl v, inl v' => v = v'
  | inr e, inr e' => Direct.transient (Direct.message e) = Direct.transient (Direct.message e')
  | _, _ => False
  end.
Proof.
  destruct a as [m|s ct text json], b as [m'|s' ct' text' json']; cbn [same_answer];
    try done.
  - by intros ->.
  - intros (<- & <- & <-). unfold Direct.attempt_result.
    destruct (Js.includes "html" ct || Js.startsWith "<" (Js.trimStart text)).
    + cbn [Direct.message]. by rewrite !html_is_transient.
    + by destruct json.
Qed.

Lemma attempts_same url net net' fuel i last last' :
  (∀ j, same_answer (net j) (net' j)) →
  (Direct.attempts url net fuel i last).2 = (Direct.attempts url net' fuel i last').2
  ∧ same_outcome (Direct.attempts url net fuel i last).1
      (Direct.attempts url net' fuel i last').1.
Proof.
  intros Hnet. revert i last last'.
  induction fuel as [|fuel IH]; intros i last last'; cbn [Direct.attempts]; [done|].
  pose proof (attempt_result_same _ _ (Hnet i)) as Hi.
  destruct (Direct.attempt_result (net i)) as [v|e],
           (Direct.attempt_result (net' i)) as [v'|e']; try done.
  rewrite Hi. destruct (negb (Direct.transient (Direct.message e')) || (i =? Direct.maxRetries)%nat);
    [done|].
  destruct (IH (S i) (Some e) (Some e')) as [Ht Ho].
  destruct (Direct.attempts url net fuel (S i) (Some e)) as [r es].
  destruct (Direct.attempts url net' fuel (S i) (Some e')) as [r' es'].
  cbn [fst snd] in *. by rewrite Ht.
Qed.

Lemma posts_from_same r r' : same_outcome r r' → posts_from r = posts_from r'.
Proof. destruct r as [v|e], r' as [v'|e']; cbn [same_outcome]; try done. by intros ->. Qed.

Context `{Runtime}.

(** X15: The direct variant reads the HTTP status only to word an error message:
    two networks whose answers differ at most in the status are asked the same
    requests, with the same waits, give the same posts, and the same feed is
    written. *)
Theorem status_decides_nothing net net' now :
  (∀ url i, same_answer (net url i) (net' url i)) →
  (Direct.fetchAll net).1 = (Direct.fetchAll net').1
  ∧ requests (Direct.main net now) = requests (Direct.main net' now)
  ∧ sleeps (Direct.main net now) = sleeps (Direct.main net' now)
  ∧ written (Direct.main net now) = written (Direct.main net' now).
Proof.
  intros Hnet.
  assert (∀ u, (Direct.fetchJsonSafe u (net u)).2 = (Direct.fetchJsonSafe u (net' u)).2
               ∧ posts_from (Direct.fetchJsonSafe u (net u)).1
                 = posts_from (Direct.fetchJsonSafe u (net' u)).1) as Hsafe.
  { intros u. unfold Direct.fetchJsonSafe.
    destruct (attempts_same u (net u) (net' u) Direct.maxRetries 1 None None (Hnet u))
      as [Ht Ho].
    split; [done|by apply posts_from_same]. }
  assert ((Direct.fetchAll net).1 = (Direct.fetchAll net').1) as Hposts.
  { unfold Direct.fetchAll.
    destruct (load_fold net apiURLs ([], [])) as [H1 _].
    destruct (load_fold net' apiURLs ([], [])) as [H2 _].
    destruct (fold_left (Direct.load net) apiURLs ([], [])) as [items log].
    destruct (fold_left (Direct.load net') apiURLs ([], [])) as [items' log'].
    cbn [fst] in *. rewrite H1, H2. cbn [app]. do 2 f_equal.
    apply map_ext. intros u. apply Hsafe. }
  split; [done|].
  destruct (direct_main_asks net now) as [-> ->].
  destruct (direct_main_asks net' now) as [-> ->].
  destruct (fetchAll_endpoints net) as [_ ->]. destruct (fetchAll_endpoints net') as [_ ->].
  rewrite !fetchAll_sleeps, !direct_main_writes, Hposts.
  repeat split; f_equal; apply map_ext; intros u; by destruct (Hsafe u) as [-> _].
Qed.

End Status.

(** ** What the next run reads for the item of a post *)

Section ReadItem.
Context `{Runtime}.
Import Sax Feed SaxFacts FeedRoundTrip DateFacts.

Lemma plain_pub_date now fpa : plain (pub_date (Date.toUTCString now) fpa) = true.
Proof.
  unfold pub_date. destruct fpa as [s|]; [|apply plain_toUTCString].
  destruct (String.eqb s ""); [apply plain_toUTCString|].
  destruct (Date_parse s); [apply plain_toUTCString|reflexivity].
Qed.

Lemma read_back_item now post :
  readable post → read_back (Playwright.itemToRSSItem now post) = Some (as_read now post).
Proof.
  intros (Hl & Hg & Hb & Hd). unfold read_back.
  cbn [Playwright.itemToRSSItem title link description pubDate guid].
  assert (chardata (escape_title (post_title post))
          = Some (Js.or_else (post_title post) "No title")) as ->.
  { unfold chardata, escape_title. rewrite run_escaped. by rewrite append_nil_l. }
  rewrite (chardata_plain _ Hl), (chardata_plain _ (plain_pub_date now _)),
    (chardata_plain _ Hg).
  cbn [mbind option_bind]. by rewrite Hd, Hb.
Qed.

Lemma read_back_items now posts :
  Forall readable posts →
  mapM read_back (map (Playwright.itemToRSSItem now) posts) = Some (map (as_read now) posts).
Proof.
  induction 1 as [|p ps Hp _ IH]; [done|]. cbn [map mapM].
  by rewrite (read_back_item now p Hp), IH.
Qed.

(** X16: The next run reads the items of a feed as they were written, but for
    the title and the description: it reads the title of the post itself,
    without the escapes, and the description without any mark of a CDATA
    section in it. *)
Theorem items_are_read_with_the_title_unescaped now now' posts :
  Forall readable posts →
  (Playwright.parseExistingFeed
     (Playwright.FileContent
        (Playwright.generateRSS now (map (Playwright.itemToRSSItem now') posts)))).1
  = map (as_read now') posts.
Proof.
  intros Hp.
  apply (parseExistingFeed_feed now _ _ _ (chardata_toUTCString now)), read_back_items, Hp.
Qed.

End ReadItem.

(** ** From one run to the next *)

Section NextRun.
Context `{Runtime}.
Import Playwright Feed FeedRoundTrip DateFacts.

Lemma empty_feed_invalid_structure content :
  empty_feed content → parseExistingFeed (FileContent content) = invalid_structure.
Proof.
  intros (v & ch & Hp & Hc & Hi). unfold parseExistingFeed.
  rewrite (parseString_model _ _ Hp). unfold feed_items. cbn [String.eqb Ascii.eqb Bool.eqb negb].
  destruct v as [s|text attrs children]; [done|]. by rewrite Hc, Hi.
Qed.

(** X17: A feed without items, as either variant writes it when nothing was
    fetched, is no feed for the next run of the Playwright variant: it logs
    an invalid structure and starts with no items. *)
Theorem empty_feed_is_invalid_for_the_next_run now :
  parseExistingFeed (FileContent (generateRSS now [])) = invalid_structure
  ∧ parseExistingFeed (FileContent (Direct.generateRSS now [])) = invalid_structure.
Proof.
  split; apply empty_feed_invalid_structure.
  - apply generateRSS_nil_empty_feed.
  - rewrite direct_generateRSS. apply generateRSS_nil_empty_feed.
Qed.

(** The loop adds nothing as long as every post it meets is known. *)
Lemma known_visit_posts_nothing clock existing posts st :
  (∀ post, post ∈ posts → represented existing post) →
  (∀ i, i ∈ existing → guid i ∈ existingGuids st ∧ link i ∈ existingLinks st) →
  newItems st = [] →
  (∀ i, i ∈ existing →
        guid i ∈ existingGuids (fold_left (visit_post clock) posts st)
        ∧ link i ∈ existingLinks (fold_left (visit_post clock) posts st))
  ∧ newItems (fold_left (visit_post clock) posts st) = [].
Proof.
  revert st. induction posts as [|p posts IH]; intros st Hposts Hst Hnew; simpl; [done|].
  assert (visit_post clock st p
          = {| existingGuids := existingGuids st; existingLinks := existingLinks st;
               newItems := newItems st; ticks := S (ticks st); trace := trace st |}) as ->.
  { unfold visit_post. cbn [itemToRSSItem guid link].
    destruct (Hposts p ltac:(left)) as (i & Hi & [Hg|Hl]).
    - rewrite <- Hg. rewrite (bool_decide_eq_true_2 _ (proj1 (Hst i Hi))). done.
    - rewrite <- Hl. rewrite (bool_decide_eq_true_2 _ (proj2 (Hst i Hi))).
      by rewrite andb_false_r. }
  apply IH; [|done..]. intros q Hq. apply Hposts. by right.
Qed.

Lemma known_visit_urls_nothing page clock existing (urls us : list string) st :
  (∀ url posts post, url ∈ urls →
     (fetchJSONWithPlaywright url (page url)).1 = Some posts → post ∈ posts →
     represented existing post) →
  (∀ u, u ∈ us → u ∈ urls) →
  (∀ i, i ∈ existing → guid i ∈ existingGuids st ∧ link i ∈ existingLinks st) →
  newItems st = [] →
  newItems (fold_left (visit_url page clock) us st) = [].
Proof.
  intros Hknown. revert st. induction us as [|u us IH]; intros st Hsub Hst Hnew; simpl; [done|].
  assert ((∀ i, i ∈ existing → guid i ∈ existingGuids (visit_url page clock st u)
                               ∧ link i ∈ existingLinks (visit_url page clock st u))
          ∧ newItems (visit_url page clock st u) = []) as [Hst' Hnew'].
  { unfold visit_url.
    destruct (fetchJSONWithPlaywright u (page u)) as [[items|] es] eqn:Hf; [|done].
    cbn [log existingGuids existingLinks newItems].
    apply (known_visit_posts_nothing clock existing items (log st es)); [|done..].
    intros post Hpost. apply (Hknown u items post); [apply Hsub; by left| |done].
    by rewrite Hf. }
  apply IH; [|done..]. intros v Hv. apply Hsub. by right.
Qed.

Lemma known_collected_nothing file page clock :
  (∀ url posts post, url ∈ apiURLs →
     (fetchJSONWithPlaywright url (page url)).1 = Some posts → post ∈ posts →
     represented (parseExistingFeed file).1 post) →
  newItems (collected file page clock) = [].
Proof.
  intros Hknown. unfold collected.
  destruct (parseExistingFeed file) as [existing es]. cbn [fst] in Hknown.
  apply (known_visit_urls_nothing page clock existing apiURLs); [done..| |done].
  intros i Hi. cbn [existingGuids existingLinks].
  split; apply elem_of_list_to_set, list_elem_of_fmap; eauto.
Qed.

(** X18: When the previous feed has, for every post the endpoints return, an
    item with the guid or the link of the post, the run adds nothing: the feed
    it writes holds the previous items, sorted and cut. *)
Theorem known_posts_add_nothing file page clock :
  (∀ url posts post, url ∈ apiURLs →
     (fetchJSONWithPlaywright url (page url)).1 = Some posts → post ∈ posts →
     represented (parseExistingFeed file).1 post) →
  newItems (collected file page clock) = []
  ∧ finalItems file page clock = take 500 (Js.sort newest_first (parseExistingFeed file).1).
Proof.
  intros Hknown. pose proof (known_collected_nothing file page clock Hknown) as Hnew.
  split; [done|]. unfold finalItems. by rewrite Hnew.
Qed.

Lemma mapM_read_back items items' i :
  mapM read_back items = Some items' → i ∈ items →
  ∃ i', i' ∈ items' ∧ read_back i = Some i'.
Proof.
  revert items'. induction items as [|x items IH]; intros items' Hm Hi;
    [by apply not_elem_of_nil in Hi|].
  cbn [mapM] in Hm. destruct (read_back x) as [x'|] eqn:Hx; [|done].
  destruct (mapM read_back items) as [xs'|] eqn:Hxs; [|done].
  cbn in Hm. injection Hm as <-.
  apply elem_of_cons in Hi as [->|Hi].
  - exists x'. split; [left|done].
  - destruct (IH xs' eq_refl Hi) as (i' & Hi' & Hr). exists i'. split; [by right|done].
Qed.

Lemma mapM_read_back_total items :
  Forall (λ i, is_Some (read_back i)) items → is_Some (mapM read_back items).
Proof.
  induction 1 as [|x items [x' Hx] _ [xs' IH]]; [by eexists|].
  cbn [mapM]. rewrite Hx, IH. by eexists.
Qed.

(** X19: A second run that gets the same answers adds nothing, when the first
    run cut nothing off and every item of its feed is read back with its guid
    and its link. *)
Theorem second_run_adds_nothing file page clock clock' :
  (length (newItems (collected file page clock)) + length (parseExistingFeed file).1
   ≤ 500)%nat →
  Forall (λ i, ∃ i', read_back i = Some i' ∧ guid i' = guid i ∧ link i' = link i)
    (finalItems file page clock) →
  newItems
    (collected
       (FileContent
          (generateRSS (clock (ticks (collected file page clock)))
             (finalItems file page clock)))
       page clock') = [].
Proof.
  intros Hle Hread.
  destruct (mapM_read_back_total (finalItems file page clock)) as [items' Hitems'].
  { eapply Forall_impl; [exact Hread|]. intros i (i' & -> & _). by eexists. }
  apply known_collected_nothing. intros url posts post Hu Hf Hpost.
  rewrite (parseExistingFeed_feed _ _ items' _ (chardata_toUTCString _) Hitems').
  destruct (represented_collected file page clock url posts post Hu Hf Hpost)
    as (i & Hi & Hgl).
  assert (i ∈ finalItems file page clock) as Hfin.
  { unfold finalItems. rewrite take_ge; [by rewrite sort_perm|].
    by rewrite sort_length, length_app. }
  destruct (mapM_read_back _ _ i Hitems' Hfin) as (i' & Hi' & Hr).
  rewrite Forall_forall in Hread. destruct (Hread i Hfin) as (i'' & Hr' & Hg & Hl).
  rewrite Hr in Hr'. injection Hr' as <-.
  exists i'. split; [done|]. rewrite Hg, Hl. exact Hgl.
Qed.

End NextRun.

(** ** Instances *)

Lemma post_at_known_link_witness :
  Playwright.itemToRSSItem Examples.noon Cases.edited
  ∉ Playwright.newItems
      (Playwright.collected (Playwright.FileContent Examples.first_feed)
         Cases.page_edited Examples.clock).
Proof.
  assert ((Playwright.parseExistingFeed
             (Playwright.FileContent Examples.first_feed)).1
          = [Examples.budget_item]) as Hfeed.
  { vm_compute. reflexivity. }
  assert (Examples.budget_item
            ∈ (Playwright.parseExistingFeed
                 (Playwright.FileContent Examples.first_feed)).1) as Hin.
  { rewrite Hfeed. left. }
  assert (link Examples.budget_item = article_url (post_url_path Cases.edited)) as Hlink.
  { vm_compute. reflexivity. }
  exact (post_at_known_link_is_not_added (Playwright.FileContent Examples.first_feed)
           Cases.page_edited Examples.clock Examples.budget_item Cases.edited
           Hin Hlink Examples.noon).
Defined.

Lemma fetched_posts_witness :
  represented
    (Playwright.newItems
       (Playwright.collected Playwright.NoFile Examples.page_budget Examples.clock)
     ++ (Playwright.parseExistingFeed Playwright.NoFile).1)
    Examples.budget.
Proof.
  assert (Examples.url41 ∈ apiURLs) as Hu by apply list_elem_of_here.
  assert ((Playwright.fetchJSONWithPlaywright Examples.url41
             (Examples.page_budget Examples.url41)).1
          = Some [Examples.budget; Examples.budget]) as Hf.
  { vm_compute. reflexivity. }
  assert (Examples.budget ∈ [Examples.budget; Examples.budget]) as Hp by left.
  exact (fetched_posts_are_represented Playwright.NoFile Examples.page_budget
           Examples.clock Examples.url41 [Examples.budget; Examples.budget]
           Examples.budget Hu Hf Hp).
Defined.

Lemma nothing_is_dropped_witness :
  Playwright.finalItems (Playwright.FileContent Examples.first_feed)
    Examples.page_search Examples.clock
  ≡ₚ Playwright.newItems
       (Playwright.collected (Playwright.FileContent Examples.first_feed)
          Examples.page_search Examples.clock)
     ++ (Playwright.parseExistingFeed (Playwright.FileContent Examples.first_feed)).1.
Proof.
  assert ((length (Playwright.newItems
                     (Playwright.collected (Playwright.FileContent Examples.first_feed)
                        Examples.page_search Examples.clock))
           + length (Playwright.parseExistingFeed
                       (Playwright.FileContent Examples.first_feed)).1 ≤ 500)%nat) as Hle.
  { replace (length _ + length _)%nat with 2%nat by (vm_compute; reflexivity). lia. }
  exact (nothing_is_dropped_up_to_500 (Playwright.FileContent Examples.first_feed)
           Examples.page_search Examples.clock Hle).
Defined.

Lemma dated_items (l : list FeedItem) :
  forallb (λ i, match date_of i with Some _ => true | None => false end) l = true →
  Forall (λ i, is_Some (date_of i)) l.
Proof.
  induction l as [|i l IH]; cbn [forallb]; [constructor|].
  intros [Hi Hl]%andb_true_iff. constructor; [|by apply IH].
  destruct (date_of i); [by eexists|done].
Qed.

(** The sort on a list that holds one element and then copies of a newer
    one. *)
Section OldFirst.
Context {A : Type} (cmp : A → A → option Z) (old new : A).
Hypothesis new_new : (0 <? Js.order (cmp new new)) = false.
Hypothesis old_new : (0 <? Js.order (cmp old new)) = true.

Lemma sort_replicate n : Js.sort cmp (replicate n new) = replicate n new.
Proof.
  induction n as [|n IH]; [done|]. cbn [replicate Js.sort fold_right].
  fold (Js.sort cmp (replicate n new)). rewrite IH.
  destruct n as [|n]; [done|]. cbn [replicate Js.insert]. by rewrite new_new.
Qed.

Lemma insert_old n : Js.insert cmp old (replicate n new) = replicate n new ++ [old].
Proof.
  induction n as [|n IH]; [done|]. cbn [replicate Js.insert app]. by rewrite old_new, IH.
Qed.

Lemma sort_old_first n : Js.sort cmp (old :: replicate n new) = replicate n new ++ [old].
Proof.
  cbn [Js.sort fold_right]. fold (Js.sort cmp (replicate n new)).
  by rewrite sort_replicate, insert_old.
Qed.

End OldFirst.

Lemma crowd_is_read :
  (Playwright.parseExistingFeed Cases.crowded).1 = Cases.crowd.
Proof.
  unfold Cases.crowded.
  apply (FeedRoundTrip.parseExistingFeed_feed Examples.noon Cases.crowd Cases.crowd _
           (DateFacts.chardata_toUTCString Examples.noon)).
  apply read_back_same. unfold Cases.crowd.
  apply Forall_cons_2; [vm_compute; reflexivity|].
  apply Forall_replicate. vm_compute. reflexivity.
Qed.

Lemma crowd_gets_nothing_new :
  Playwright.newItems (Playwright.collected Cases.crowded Examples.page_down Examples.clock)
  = [].
Proof.
  apply known_collected_nothing. intros url posts post _ Hf. discriminate Hf.
Qed.

Lemma crowd_sorted :
  sortedItems Cases.crowded Examples.page_down Examples.clock
  = replicate 500 Cases.harvest_item ++ [Examples.budget_item].
Proof.
  unfold sortedItems. rewrite crowd_gets_nothing_new, crowd_is_read. cbn [app].
  unfold Cases.crowd. apply sort_old_first; vm_compute; reflexivity.
Qed.

Lemma net_crowd_fetched :
  (Direct.fetchAll Cases.net_crowd).1
  = replicate 500 Cases.harvest ++ [Examples.budget].
Proof.
  unfold Direct.fetchAll.
  destruct (load_fold Cases.net_crowd apiURLs ([], [])) as [Hposts _].
  destruct (fold_left (Direct.load Cases.net_crowd) apiURLs ([], [])) as [allItems log].
  cbn [fst app] in *. subst allItems.
  assert (concat (map (λ u, posts_from (Direct.fetchJsonSafe u (Cases.net_crowd u)).1) apiURLs)
          = Examples.budget :: replicate 500 Cases.harvest) as ->.
  { vm_compute. reflexivity. }
  apply sort_old_first; vm_compute; reflexivity.
Qed.

(** A previous feed of 501 items, and an endpoint that lists 501 posts:
    the budget article of 2020, met first, is what each variant cuts off. *)
Lemma cut_drops_the_oldest_witness :
  (drop 500 (sortedItems Cases.crowded Examples.page_down Examples.clock)
   = [Examples.budget_item]
   ∧ Forall (λ kept, Forall (not_older date_of kept)
                       (drop 500 (sortedItems Cases.crowded Examples.page_down
                                    Examples.clock)))
       (Playwright.finalItems Cases.crowded Examples.page_down Examples.clock))
  ∧ (drop 500 (Direct.fetchAll Cases.net_crowd).1 = [Examples.budget]
     ∧ Forall (λ kept, Forall (not_older Direct.published kept)
                         (drop 500 (Direct.fetchAll Cases.net_crowd).1))
         (take 500 (Direct.fetchAll Cases.net_crowd).1)).
Proof.
  assert (Forall (λ i, is_Some (date_of i))
            (Playwright.newItems
               (Playwright.collected Cases.crowded Examples.page_down Examples.clock)
             ++ (Playwright.parseExistingFeed Cases.crowded).1)) as Hp.
  { rewrite crowd_gets_nothing_new, crowd_is_read. cbn [app]. unfold Cases.crowd.
    apply Forall_cons_2; [compute_some|]. apply Forall_replicate. compute_some. }
  assert (Forall (λ p, is_Some (Direct.published p))
            (Direct.fetchAll Cases.net_crowd).1) as Hd.
  { rewrite net_crowd_fetched. apply Forall_app. split.
    - apply Forall_replicate. compute_some.
    - apply Forall_cons_2; [compute_some|apply Forall_nil_2]. }
  destruct (cut_drops_the_oldest Cases.crowded Examples.page_down Examples.clock
              Cases.net_crowd Hp Hd) as [Hkept Hkept'].
  split; (split; [|assumption]).
  - rewrite crowd_sorted. apply drop_app_length'. symmetry. apply length_replicate.
  - rewrite net_crowd_fetched. apply drop_app_length'. symmetry. apply length_replicate.
Defined.

(** A run that finds two articles of the day of the budget article, which
    the previous feed holds: the three stand as they were met. *)
Lemma items_of_one_date_witness :
  dated 1577836800000
    (sortedItems (Playwright.FileContent Examples.first_feed)
       Cases.page_day Examples.clock)
  = dated 1577836800000
      (Playwright.newItems
         (Playwright.collected (Playwright.FileContent Examples.first_feed)
            Cases.page_day Examples.clock))
    ++ dated 1577836800000
         (Playwright.parseExistingFeed (Playwright.FileContent Examples.first_feed)).1
  ∧ dated 1577836800000
      (Playwright.newItems
         (Playwright.collected (Playwright.FileContent Examples.first_feed)
            Cases.page_day Examples.clock))
    = [Playwright.itemToRSSItem Examples.noon Cases.speech;
       Playwright.itemToRSSItem Examples.noon Cases.reactions]
  ∧ dated 1577836800000
      (Playwright.parseExistingFeed (Playwright.FileContent Examples.first_feed)).1
    = [Examples.budget_item].
Proof.
  assert (Forall (λ i, is_Some (date_of i))
            (Playwright.newItems
               (Playwright.collected (Playwright.FileContent Examples.first_feed)
                  Cases.page_day Examples.clock)
             ++ (Playwright.parseExistingFeed
                   (Playwright.FileContent Examples.first_feed)).1)) as Hp.
  { apply dated_items. vm_compute. reflexivity. }
  split; [|split; vm_compute; reflexivity].
  exact (proj1 (items_of_one_date_keep_their_order
                  (Playwright.FileContent Examples.first_feed)
                  Cases.page_day Examples.clock 1577836800000 Hp)).
Defined.

Lemma variants_write_the_same_witness :
  Direct.generateRSS Examples.noon [Examples.budget]
  = Playwright.generateRSS Examples.noon
      (map (Playwright.itemToRSSItem Examples.noon) [Examples.budget]).
Proof.
  assert (Forall (λ p, Js.truthy (post_excerpt p) = true
                       ∨ Js.truthy (post_summary p) = false) [Examples.budget]) as Hp.
  { apply Forall_cons_2; [by left|apply Forall_nil_2]. }
  exact (variants_write_the_same_items Examples.noon [Examples.budget] Hp).
Defined.

Lemma status_decides_nothing_witness :
  written (Direct.main Examples.net_same Examples.noon)
  = written (Direct.main Cases.net_same_503 Examples.noon).
Proof.
  assert (∀ url i, same_answer (Examples.net_same url i) (Cases.net_same_503 url i)) as Hnet.
  { intros url i. repeat split. }
  destruct (status_decides_nothing Examples.net_same Cases.net_same_503 Examples.noon Hnet)
    as (_ & _ & _ & Hw).
  exact Hw.
Defined.

Lemma items_are_read_witness :
  (Playwright.parseExistingFeed
     (Playwright.FileContent
        (Playwright.generateRSS Examples.noon
           (map (Playwright.itemToRSSItem Examples.noon) [Cases.markets])))).1
  = map (as_read Examples.noon) [Cases.markets].
Proof.
  assert (Forall readable [Cases.markets]) as Hp.
  { apply Forall_cons_2; [|apply Forall_nil_2].
    unfold readable. repeat split; vm_compute; reflexivity. }
  exact (items_are_read_with_the_title_unescaped Examples.noon Examples.noon
           [Cases.markets] Hp).
Defined.

Lemma known_posts_witness :
  Playwright.newItems
    (Playwright.collected (Playwright.FileContent Examples.first_feed)
       Examples.page_empty Examples.clock) = [].
Proof.
  assert ((Playwright.parseExistingFeed
             (Playwright.FileContent Examples.first_feed)).1
          = [Examples.budget_item]) as Hfeed.
  { vm_compute. reflexivity. }
  assert (∀ url posts post, url ∈ apiURLs →
            (Playwright.fetchJSONWithPlaywright url (Examples.page_empty url)).1 = Some posts →
            post ∈ posts →
            represented (Playwright.parseExistingFeed
                           (Playwright.FileContent Examples.first_feed)).1 post) as Hknown.
  { intros url posts post Hu Hf Hpost. rewrite Hfeed.
    assert (posts = [Examples.moved]) as ->.
    { unfold apiURLs in Hu.
      apply elem_of_cons in Hu as [->|Hu]; [by injection Hf as <-|].
      apply list_elem_of_singleton in Hu as ->. discriminate Hf. }
    apply list_elem_of_singleton in Hpost as ->.
    exists Examples.budget_item. split; [left|]. left. vm_compute. reflexivity. }
  exact (proj1 (known_posts_add_nothing (Playwright.FileContent Examples.first_feed)
                  Examples.page_empty Examples.clock Hknown)).
Defined.

Lemma second_run_witness :
  Playwright.newItems
    (Playwright.collected
       (Playwright.FileContent
          (Playwright.generateRSS
             (Examples.clock
                (Playwright.ticks
                   (Playwright.collected Playwright.NoFile Examples.page_budget
                      Examples.clock)))
             (Playwright.finalItems Playwright.NoFile Examples.page_budget Examples.clock)))
       Examples.page_budget Examples.clock) = [].
Proof.
  assert ((length (Playwright.newItems
                     (Playwright.collected Playwright.NoFile Examples.page_budget
                        Examples.clock))
           + length (Playwright.parseExistingFeed Playwright.NoFile).1 ≤ 500)%nat) as Hle.
  { replace (length _ + length _)%nat with 1%nat by (vm_compute; reflexivity). lia. }
  assert (Forall (λ i, ∃ i', read_back i = Some i' ∧ guid i' = guid i ∧ link i' = link i)
            (Playwright.finalItems Playwright.NoFile Examples.page_budget Examples.clock))
    as Hread.
  { compute_list. apply Forall_cons_2; [|apply Forall_nil_2].
    eexists. split; [vm_compute; reflexivity|]. split; reflexivity. }
  exact (second_run_adds_nothing Playwright.NoFile Examples.page_budget Examples.clock
           Examples.clock Hle Hread).
Defined.

(** ** C8: a previous feed that cannot be used *)

Section Unusable.
Context `{Runtime}.
Import Playwright.

(** C8: when the previous feed is absent, cannot be read, is rejected by
    the parser, holds no [rss.channel[0].item], or holds an item that lacks a
    field, [parseExistingFeed] gives no items and the run goes on as a run
    without previous feed: every endpoint is asked, every post an endpoint
    returns is merged, and [feed.xml] is written, with the new items alone,
    sorted and cut; it is the file a run without previous feed writes. *)
Theorem C8_unusable_feed_is_empty_history file page clock :
  (file = NoFile ∨ file = Unreadable
   ∨ ∃ xml, file = FileContent xml
       ∧ (parseString xml = Xml2js.Rejected
          ∨ parseString xml = Xml2js.Resolved None
          ∨ ∃ root v, parseString xml = Xml2js.Resolved (Some (root, v))
              ∧ (feed_items root v = None
                 ∨ ∃ it its, feed_items root v = Some (it, its)
                     ∧ items_of (it :: its) = None))) →
  (parseExistingFeed file).1 = []
  ∧ written (main file page clock)
    = [("feed.xml",
        generateRSS (clock (ticks (collected file page clock)))
          (finalItems file page clock))]
  ∧ finalItems file page clock
    = take 500 (Js.sort newest_first (newItems (collected file page clock)))
  ∧ requests (main file page clock) = map (λ u, (u, None)) apiURLs
  ∧ (∀ url posts post,
       url ∈ apiURLs → (fetchJSONWithPlaywright url (page url)).1 = Some posts →
       post ∈ posts → represented (newItems (collected file page clock)) post)
  ∧ finalItems file page clock = finalItems NoFile page clock
  ∧ written (main file page clock) = written (main NoFile page clock).
Proof.
  intros Hfile.
  assert ((parseExistingFeed file).1 = []) as Hempty.
  { destruct Hfile as [->|[->|(xml & -> & Hxml)]]; [done..|].
    unfold parseExistingFeed.
    destruct Hxml as [->|[->|(root & v & -> & [->|(it & its & -> & ->)])]]; done. }
  assert ((parseExistingFeed file).1 = (parseExistingFeed NoFile).1) as He by done.
  destruct (same_existing_collected file NoFile page clock He) as (_ & _ & Hn & Ht).
  assert (finalItems file page clock = finalItems NoFile page clock) as Hf.
  { unfold finalItems. by rewrite Hn, He. }
  split; [done|]. split; [apply playwright_main_writes|].
  split; [unfold finalItems; by rewrite Hempty, app_nil_r|].
  split.
  { unfold main. rewrite requests_app, collected_requests. cbn [requests omap].
    by rewrite app_nil_r. }
  split.
  { intros url posts post Hu Hp Hpost.
    pose proof (represented_collected file page clock url posts post Hu Hp Hpost) as Hr.
    by rewrite Hempty, app_nil_r in Hr. }
  split; [done|].
  by rewrite !playwright_main_writes, Hf, Ht.
Qed.

End Unusable.

(** A previous feed that breaks off: the run finds the budget article and
    writes a feed with it. *)
Lemma C8_witness :
  (Playwright.parseExistingFeed (Playwright.FileContent "<rss><channel>")).1 = []
  ∧ written (Playwright.main (Playwright.FileContent "<rss><channel>")
               Examples.page_budget Examples.clock)
    = [("feed.xml",
        Playwright.generateRSS
          (Examples.clock
             (Playwright.ticks
                (Playwright.collected (Playwright.FileContent "<rss><channel>")
                   Examples.page_budget Examples.clock)))
          (Playwright.finalItems (Playwright.FileContent "<rss><channel>")
             Examples.page_budget Examples.clock))]
  ∧ Playwright.finalItems (Playwright.FileContent "<rss><channel>")
      Examples.page_budget Examples.clock
    = [Examples.budget_item].
Proof.
  assert (Playwright.FileContent "<rss><channel>" = Playwright.NoFile
          ∨ Playwright.FileContent "<rss><channel>" = Playwright.Unreadable
          ∨ ∃ xml, Playwright.FileContent "<rss><channel>" = Playwright.FileContent xml
              ∧ (parseString xml = Xml2js.Rejected
                 ∨ parseString xml = Xml2js.Resolved None
                 ∨ ∃ root v, parseString xml = Xml2js.Resolved (Some (root, v))
                     ∧ (Playwright.feed_items root v = None
                        ∨ ∃ it its, Playwright.feed_items root v = Some (it, its)
                            ∧ Playwright.items_of (it :: its) = None))) as Hfile.
  { right. right. exists "<rss><channel>". split; [reflexivity|]. left.
    vm_compute. reflexivity. }
  destruct (C8_unusable_feed_is_empty_history (Playwright.FileContent "<rss><channel>")
              Examples.page_budget Examples.clock Hfile) as (Hempty & Hw & _).
  split; [exact Hempty|]. split; [exact Hw|]. vm_compute. reflexivity.
Defined.
